(** * Legacy authcrypt packing (Aries RFC 0019)

    A shallow embedding of [pkg/didcomm/crypto/legacy/authcrypt/encrypt.go],
    with the codecs it calls (base64, base58, JSON) and, for the round trip,
    the decrypting side as the specification describes it.

    Go byte slices and Go strings are both sequences of bytes and are
    modelled as [list byte].  Every call the packer makes on one of its
    collaborators (the injected randomness source, the KMS, the crypto box,
    the key converter and the ChaCha20-Poly1305 cipher) is an operation of a
    small free monad, so that what a call of [Encrypt] asks of the outside
    world, and in which order, can be read off the program. *)

From Stdlib Require Import NArith Lia List Strings.String Strings.Byte Bool.
From stdpp Require Import base list.

Local Open Scope N_scope.
Local Open Scope nat_scope.

Definition bytes := list byte.

(** A Go string literal as the bytes it holds. *)
Definition str (s : string) : bytes := list_byte_of_string s.

(** ** Errors and results *)

(** A Go [error] value, identified by its message. *)
Definition error := string.

Definition errors_New (msg : string) : error := msg.

(** The [(value, error)] pair a fallible Go function returns: [Err e] is
    [(nil, e)], [Ok v] is [(v, nil)]. *)
Inductive result (A : Type) : Type :=
| Ok (v : A)
| Err (e : error).
Arguments Ok {A} v.
Arguments Err {A} e.

(** The two components of the Go return pair. *)
Definition go_value {A} (r : result A) : option A :=
  match r with Ok v => Some v | Err _ => None end.

Definition go_error {A} (r : result A) : option error :=
  match r with Ok _ => None | Err e => Some e end.

(** ** Collaborator operations *)

Inductive Op : Type :=
| RandRead (n : nat)
    (* c.randSource.Read(buf) with len(buf) = n *)
| ConvertToEncryptionKey (key : bytes)
    (* c.kms.ConvertToEncryptionKey(key) *)
| PublicEd25519toCurve25519 (key : bytes)
    (* cryptoutil.PublicEd25519toCurve25519(key) *)
| NewCryptoBox
    (* kms.NewCryptoBox(c.kms) *)
| BoxEasy (payload nonce theirPub myPub : bytes)
    (* box.Easy(payload, nonce, theirPub, myPub) *)
| BoxSeal (payload theirEncPub : bytes)
    (* box.Seal(payload, theirEncPub, c.randSource) *)
| ChachaSeal (key nonce plaintext additionalData : bytes).
    (* chachaCipher.Seal(nil, nonce, plaintext, additionalData), cipher keyed by key *)

(** What each operation hands back.  [Read] reports the bytes it left at
    the head of the buffer (their number is the count it returns) together
    with its error; the AEAD [Seal] returns a slice and no error; everything
    else returns [(value, error)]. *)
Definition Ans (o : Op) : Type :=
  match o with
  | RandRead _ => (bytes * option error)%type
  | ChachaSeal _ _ _ _ => bytes
  | NewCryptoBox => result unit
  | _ => result bytes
  end.

(** ** Programs *)

Inductive Prog (A : Type) : Type :=
| Ret (a : A)
| Panic (msg : string)
| Call (o : Op) (k : Ans o -> Prog A).
Arguments Ret {A} a.
Arguments Panic {A} msg.
Arguments Call {A} o k.

Fixpoint bind {A B} (m : Prog A) (f : A -> Prog B) : Prog B :=
  match m with
  | Ret a => f a
  | Panic msg => Panic msg
  | Call o k => Call o (fun a => bind (k a) f)
  end.

(** [v, err := f(...); if err != nil { return nil, err }] *)
Definition bindE {A B} (m : Prog (result A)) (f : A -> Prog (result B))
  : Prog (result B) :=
  bind m (fun r => match r with Ok v => f v | Err e => Ret (Err e) end).

Notation "'letE' x := m 'in' k" := (bindE m (fun x => k))
  (at level 10, x name, m at level 200, k at level 200,
   format "'[v' 'letE'  x  :=  m  'in' '/' k ']'").

Definition call (o : Op) : Prog (Ans o) := Call o Ret.

(** One recorded call: the operation and what it answered. *)
Inductive Event : Type :=
| Ev (o : Op) (a : Ans o).

Inductive outcome (A : Type) : Type :=
| Done (a : A)
| Panicked (msg : string).
Arguments Done {A} a.
Arguments Panicked {A} msg.

(** The collaborators, as one state transformer per operation. *)
Definition handler (St : Type) : Type := forall o : Op, St -> Ans o * St.

Fixpoint run {St A} (h : handler St) (p : Prog A) (s : St)
  : outcome A * St * list Event :=
  match p with
  | Ret a => (Done a, s, [])
  | Panic msg => (Panicked msg, s, [])
  | Call o k =>
      let '(a, s1) := h o s in
      let '(r, s2, t) := run h (k a) s1 in
      (r, s2, Ev o a :: t)
  end.

(** The error an answer carries, if any. *)
Definition ans_error (o : Op) : Ans o -> option error :=
  match o with
  | RandRead _ => fun a => snd a
  | ChachaSeal _ _ _ _ => fun _ => None
  | NewCryptoBox => fun a => go_error a
  | ConvertToEncryptionKey _ => fun a => go_error a
  | PublicEd25519toCurve25519 _ => fun a => go_error a
  | BoxEasy _ _ _ _ => fun a => go_error a
  | BoxSeal _ _ => fun a => go_error a
  end.

Definition failure (ev : Event) : option error :=
  match ev with Ev o a => ans_error o a end.

(** ** Slices *)

(** [s[i] = v]: a run-time panic when [i] is out of range. *)
Definition slice_set {A} (s : list A) (i : nat) (v : A) : option (list A) :=
  if decide (i < length s) then Some (<[i:=v]> s) else None.

(** ** encoding/base64, URL alphabet with padding *)

Definition encodeURL : bytes :=
  str "ABCDEFGHIJKLMNOPQRSTUVWXYZabcdefghijklmnopqrstuvwxyz0123456789-_".

Definition padChar : byte := "="%byte.

(** [enc.encode[v & 0x3F]] *)
Definition b64digit (v : N) : byte :=
  nth (N.to_nat (v mod 64)) encodeURL padChar.

(** [base64.URLEncoding.EncodeToString]: three source bytes form a 24-bit
    value [val] ([src[0]<<16 | src[1]<<8 | src[2]]), written out as four
    6-bit digits; a remainder of one or two bytes is padded. *)
Fixpoint EncodeToString (src : bytes) : bytes :=
  match src with
  | [] => []
  | [a] =>
      let val := (Byte.to_N a * 65536)%N in
      [b64digit (val / 262144); b64digit (val / 4096); padChar; padChar]
  | [a; b] =>
      let val := (Byte.to_N a * 65536 + Byte.to_N b * 256)%N in
      [b64digit (val / 262144); b64digit (val / 4096); b64digit (val / 64);
       padChar]
  | a :: b :: c :: rest =>
      let val := (Byte.to_N a * 65536 + Byte.to_N b * 256 + Byte.to_N c)%N in
      b64digit (val / 262144) :: b64digit (val / 4096) :: b64digit (val / 64)
        :: b64digit val :: EncodeToString rest
  end.

(** ** btcutil/base58 *)

Definition b58alphabet : bytes :=
  str "123456789ABCDEFGHJKLMNPQRSTUVWXYZabcdefghijkmnopqrstuvwxyz".

Definition alphabetIdx0 : byte := "1"%byte.

Definition b58digit (v : N) : byte :=
  nth (N.to_nat v) b58alphabet alphabetIdx0.

(** [big.Int.SetBytes]: the big-endian unsigned value of a byte slice. *)
Definition SetBytes (b : bytes) : N :=
  fold_left (fun acc x => (acc * 256 + Byte.to_N x)%N) b 0%N.

(** [for x.Cmp(bigZero) > 0 { x.DivMod(x, bigRadix, mod); answer = append(answer, alphabet[mod]) }]
    The loop runs at most once per bit of [x]; [fuel] bounds it. *)
Fixpoint b58digits (fuel : nat) (x : N) : bytes :=
  match fuel with
  | O => []
  | S fuel' =>
      if (0 <? x)%N
      then b58digit (x mod 58) :: b58digits fuel' (x / 58)
      else []
  end.

(** [for _, i := range b { if i != 0 { break }; answer = append(answer, alphabetIdx0) }] *)
Fixpoint b58zeros (b : bytes) : bytes :=
  match b with
  | x :: rest => if Byte.eqb x x00 then alphabetIdx0 :: b58zeros rest else []
  | [] => []
  end.

(** [base58.Encode]: digits least significant first, then one ['1'] per
    leading zero byte, then the whole answer reversed. *)
Definition base58_Encode (b : bytes) : bytes :=
  rev (b58digits (8 * length b) (SetBytes b) ++ b58zeros b).

(** ** The wire structures *)

(** Modelled from the spec: the struct declarations [recipientHeader],
    [recipient], [protected] and [legacyEnvelope] live in a file of the
    package that is not part of the sources at hand; the fields are the ones
    [encrypt.go] assigns, the JSON names and their order are those of the
    wire format section of the specification. *)
Record recipientHeader : Type := {
  KID : bytes;
  Sender : bytes;
  IV : bytes
}.

Record recipient : Type := {
  EncryptedKey : bytes;
  Header : recipientHeader
}.

Record protected : Type := {
  Enc : bytes;
  Typ : bytes;
  Alg : bytes;
  Recipients : list recipient
}.

Record legacyEnvelope : Type := {
  Protected : bytes;
  envIV : bytes;
  CipherText : bytes;
  Tag : bytes
}.

(** The zero value of [recipient], as [make([]recipient, n)] fills it in. *)
Definition zero_recipient : recipient :=
  {| EncryptedKey := []; Header := {| KID := []; Sender := []; IV := [] |} |}.

(** ** encoding/json *)

Definition hex : bytes := str "0123456789abcdef".

Definition hexdigit (v : N) : byte := nth (N.to_nat v) hex "0"%byte.

Definition quote : byte := x22.
Definition backslash : byte := x5c.

(** [htmlSafeSet]: the printable ASCII characters that need no escape. *)
Definition htmlSafe (c : byte) : bool :=
  (32 <=? Byte.to_N c)%N && (Byte.to_N c <? 128)%N
  && negb (Byte.eqb c quote) && negb (Byte.eqb c backslash)
  && negb (Byte.eqb c "&"%byte) && negb (Byte.eqb c "<"%byte)
  && negb (Byte.eqb c ">"%byte).

(** One byte of a string, as [encodeState.string] writes it.  Bytes outside
    ASCII are written through, as the encoder does for well-formed UTF-8
    text; none occurs in a string the packer serializes. *)
Definition json_char (c : byte) : bytes :=
  if (128 <=? Byte.to_N c)%N then [c]
  else if htmlSafe c then [c]
  else if Byte.eqb c backslash || Byte.eqb c quote then [backslash; c]
  else if Byte.eqb c x0a then [backslash; "n"%byte]
  else if Byte.eqb c x0d then [backslash; "r"%byte]
  else if Byte.eqb c x09 then [backslash; "t"%byte]
  else [backslash; "u"%byte; "0"%byte; "0"%byte;
        hexdigit (Byte.to_N c / 16); hexdigit (Byte.to_N c mod 16)].

Definition json_string (s : bytes) : bytes :=
  quote :: flat_map json_char s ++ [quote].

(** A struct field: ["name":value]. *)
Definition json_field (name : string) (value : bytes) : bytes :=
  quote :: str name ++ quote :: ":"%byte :: value.

Fixpoint json_commas (items : list bytes) : bytes :=
  match items with
  | [] => []
  | [x] => x
  | x :: rest => x ++ ","%byte :: json_commas rest
  end.

Definition json_object (fields : list bytes) : bytes :=
  "{"%byte :: json_commas fields ++ ["}"%byte].

Definition json_array (items : list bytes) : bytes :=
  "["%byte :: json_commas items ++ ["]"%byte].

Definition marshal_recipientHeader (h : recipientHeader) : bytes :=
  json_object [json_field "kid" (json_string (KID h));
               json_field "sender" (json_string (Sender h));
               json_field "iv" (json_string (IV h))].

Definition marshal_recipient (r : recipient) : bytes :=
  json_object [json_field "encrypted_key" (json_string (EncryptedKey r));
               json_field "header" (marshal_recipientHeader (Header r))].

Definition marshal_protected (p : protected) : bytes :=
  json_object [json_field "enc" (json_string (Enc p));
               json_field "typ" (json_string (Typ p));
               json_field "alg" (json_string (Alg p));
               json_field "recipients"
                 (json_array (map marshal_recipient (Recipients p)))].

Definition marshal_legacyEnvelope (e : legacyEnvelope) : bytes :=
  json_object [json_field "protected" (json_string (Protected e));
               json_field "iv" (json_string (envIV e));
               json_field "ciphertext" (json_string (CipherText e));
               json_field "tag" (json_string (Tag e))].

(** [json.Marshal] on the two structs the packer serializes; neither holds a
    value the encoder rejects, so the error is always [nil]. *)
Definition json_Marshal_protected (p : protected) : result bytes :=
  Ok (marshal_protected p).

Definition json_Marshal_legacyEnvelope (e : legacyEnvelope) : result bytes :=
  Ok (marshal_legacyEnvelope e).

(** ** Constants of the cipher suite *)

Definition chacha_NonceSize : nat := 12.
Definition chacha_KeySize : nat := 32.
Definition poly1305_TagSize : nat := 16.

(** [chacha.New(key)]: rejects a key that is not [KeySize] bytes long and
    otherwise keeps the key. *)
Definition chacha_New (key : bytes) : result bytes :=
  if decide (length key = chacha_KeySize) then Ok key
  else Err (errors_New "chacha20poly1305: bad key length").

(** ** The packer *)

(** A buffer of [n] zero bytes after [Read] wrote [data] at its head. *)
Definition filled (n : nat) (data : bytes) : bytes :=
  take n (data ++ replicate (n - length data) x00).

(** [buf := make([]byte, n); _, err = c.randSource.Read(buf)]: the count is
    dropped, only the error is looked at. *)
Definition readRand (n : nat) : Prog (result bytes) :=
  Call (RandRead n) (fun a =>
    match snd a with
    | Some e => Ret (Err e)
    | None => Ret (Ok (filled n (fst a)))
    end).

(** [buildRecipient] encodes the necessary data for the recipient to decrypt
    the message: encrypting the CEK and sender pub key. *)
Definition buildRecipient (cek senderKey recKey : bytes)
  : Prog (result recipient) :=
  letE nonce := readRand 24 in
  letE senderEncKey := call (ConvertToEncryptionKey senderKey) in
  letE recEncKey := call (PublicEd25519toCurve25519 recKey) in
  letE box := call NewCryptoBox in
  letE encCEK := call (BoxEasy cek nonce recEncKey senderEncKey) in
  letE encSender := call (BoxSeal (base58_Encode senderKey) recEncKey) in
  Ret (Ok {| EncryptedKey := EncodeToString encCEK;
             Header := {| KID := base58_Encode recKey;
                          Sender := EncodeToString encSender;
                          IV := EncodeToString nonce |} |}).

(** The [for i, recKey := range recPubKeys] loop of [buildRecipients]. *)
Fixpoint buildRecipients_loop (cek senderKey : bytes) (i : nat)
    (recPubKeys : list bytes) (encodedRecipients : list recipient)
  : Prog (result (list recipient)) :=
  match recPubKeys with
  | [] => Ret (Ok encodedRecipients)
  | recKey :: rest =>
      letE recipient := buildRecipient cek senderKey recKey in
      match slice_set encodedRecipients i recipient with
      | Some encodedRecipients' =>
          buildRecipients_loop cek senderKey (S i) rest encodedRecipients'
      | None => Panic "index out of range"
      end
  end.

Definition buildRecipients (cek senderKey : bytes) (recPubKeys : list bytes)
  : Prog (result (list recipient)) :=
  buildRecipients_loop cek senderKey 0 recPubKeys
    (replicate (length recPubKeys) zero_recipient).

Definition buildEnvelope (nonce payload cek : bytes) (protected : protected)
  : Prog (result bytes) :=
  letE protectedBytes := Ret (json_Marshal_protected protected) in
  let protectedB64 := EncodeToString protectedBytes in
  letE chachaCipher := Ret (chacha_New cek) in
  (* Additional data is b64encode(jsonencode(protected)) *)
  Call (ChachaSeal chachaCipher nonce payload protectedB64) (fun symPld =>
  (* symPld has a length of len(pld) + poly1305.TagSize *)
  if decide (length symPld < poly1305_TagSize)
  then Panic "slice bounds out of range"
  else
    (* fetch the tag from the tail *)
    let tag := drop (length symPld - poly1305_TagSize) symPld in
    (* fetch the cipherText from the head (0:up to the trailing tag) *)
    let cipherText := take (length symPld - poly1305_TagSize) symPld in
    let env := {| Protected := protectedB64;
                  envIV := EncodeToString nonce;
                  CipherText := EncodeToString cipherText;
                  Tag := EncodeToString tag |} in
    letE out := Ret (json_Marshal_legacyEnvelope env) in
    Ret (Ok out)).

(** The [for i, key := range recipientPubKeys] loop filling [recKeys]. *)
Fixpoint recKeys_loop (i : nat) (recipientPubKeys : list bytes)
    (recKeys : list bytes) : option (list bytes) :=
  match recipientPubKeys with
  | [] => Some recKeys
  | key :: rest =>
      match slice_set recKeys i (base58_Encode key) with
      | Some recKeys' => recKeys_loop (S i) rest recKeys'
      | None => None
      end
  end.

Definition empty_recipients_error : error :=
  errors_New "empty recipients keys, must have at least one recipient".

(** [Encrypt] will encode the payload argument, using the protocol defined
    by Aries RFC 0019. *)
Definition Encrypt (payload sender : bytes) (recipientPubKeys : list bytes)
  : Prog (result bytes) :=
  if decide (length recipientPubKeys = 0) then Ret (Err empty_recipients_error)
  else
    letE nonce := readRand chacha_NonceSize in
    (* cek (content encryption key) is a symmetric key, for chacha20 *)
    letE cek := readRand chacha_KeySize in
    match recKeys_loop 0 recipientPubKeys
            (replicate (length recipientPubKeys) []) with
    | None => Panic "index out of range"
    | Some recKeys =>
        letE recipients := buildRecipients cek sender recipientPubKeys in
        let p := {| Enc := str "chacha20poly1305_ietf";
                    Typ := str "JWM/1.0";
                    Alg := str "Authcrypt";
                    Recipients := recipients |} in
        buildEnvelope nonce payload cek p
    end.

(** [Encrypt] with the construction of [recKeys] taken out. *)
Definition Encrypt_without_recKeys (payload sender : bytes)
    (recipientPubKeys : list bytes) : Prog (result bytes) :=
  if decide (length recipientPubKeys = 0) then Ret (Err empty_recipients_error)
  else
    letE nonce := readRand chacha_NonceSize in
    letE cek := readRand chacha_KeySize in
    letE recipients := buildRecipients cek sender recipientPubKeys in
    let p := {| Enc := str "chacha20poly1305_ietf";
                Typ := str "JWM/1.0";
                Alg := str "Authcrypt";
                Recipients := recipients |} in
    buildEnvelope nonce payload cek p.

(** ** Describing a successful run *)

(** What the collaborators answered while one recipient entry was built:
    the bytes the wrap-nonce read wrote, the two converted keys, the
    [Easy] box of the CEK and the [Seal] of the sender key. *)
Record wrap : Type := {
  nonceRead : bytes;
  senderEncKey : bytes;
  recEncKey : bytes;
  encCEK : bytes;
  encSender : bytes
}.

(** The wrap nonce: the 24-byte buffer after the read. *)
Definition wrapNonce (w : wrap) : bytes := filled 24 (nonceRead w).

(** The entry [buildRecipient] returns for [recKey]. *)
Definition recipient_entry (recKey : bytes) (w : wrap) : recipient :=
  {| EncryptedKey := EncodeToString (encCEK w);
     Header := {| KID := base58_Encode recKey;
                  Sender := EncodeToString (encSender w);
                  IV := EncodeToString (wrapNonce w) |} |}.

(** The calls of a [buildRecipient] that succeeds, in order. *)
Definition recipient_events (cek senderKey recKey : bytes) (w : wrap)
  : list Event :=
  [ Ev (RandRead 24) (nonceRead w, None);
    Ev (ConvertToEncryptionKey senderKey) (Ok (senderEncKey w));
    Ev (PublicEd25519toCurve25519 recKey) (Ok (recEncKey w));
    Ev NewCryptoBox (Ok tt);
    Ev (BoxEasy cek (wrapNonce w) (recEncKey w) (senderEncKey w))
       (Ok (encCEK w));
    Ev (BoxSeal (base58_Encode senderKey) (recEncKey w)) (Ok (encSender w)) ].

(** The protected header [Encrypt] assembles around a recipient list. *)
Definition header (recipients : list recipient) : protected :=
  {| Enc := str "chacha20poly1305_ietf";
     Typ := str "JWM/1.0";
     Alg := str "Authcrypt";
     Recipients := recipients |}.

Definition protectedB64 (recipients : list recipient) : bytes :=
  EncodeToString (marshal_protected (header recipients)).

(** Everything a successful call fixes: the two reads, the recipient
    entries with the calls that built them, the one AEAD call and the bytes
    returned. *)
Record sealed (payload sender : bytes) (recipientPubKeys : list bytes)
    (t : list Event) (out : bytes)
    (nonceData cekData : bytes) (ws : list wrap) (symPld : bytes) : Prop := {
  sealed_wraps : length ws = length recipientPubKeys;
  sealed_trace :
    t = Ev (RandRead chacha_NonceSize) (nonceData, None)
        :: Ev (RandRead chacha_KeySize) (cekData, None)
        :: concat (zip_with (recipient_events
                               (filled chacha_KeySize cekData) sender)
                     recipientPubKeys ws)
        ++ [Ev (ChachaSeal (filled chacha_KeySize cekData)
                  (filled chacha_NonceSize nonceData) payload
                  (protectedB64 (zip_with recipient_entry recipientPubKeys ws)))
               symPld];
  sealed_tag_in_range : poly1305_TagSize <= length symPld;
  sealed_out :
    out = marshal_legacyEnvelope
            {| Protected :=
                 protectedB64 (zip_with recipient_entry recipientPubKeys ws);
               envIV := EncodeToString (filled chacha_NonceSize nonceData);
               CipherText :=
                 EncodeToString (take (length symPld - poly1305_TagSize) symPld);
               Tag :=
                 EncodeToString (drop (length symPld - poly1305_TagSize) symPld) |}
}.

(** ** Text that needs no escaping *)

(** Every byte of [s] is written to JSON as it is. *)
Definition plain (s : bytes) : Prop := Forall (fun c => htmlSafe c = true) s.

(** A string value that needs no escape: the bytes between two quotes. *)
Definition quoted (s : bytes) : bytes := quote :: s ++ [quote].

(** The additional-data argument of every AEAD [Seal] in a trace. *)
Definition aead_aad (ev : Event) : option bytes :=
  match ev with
  | Ev (ChachaSeal _ _ _ additionalData) _ => Some additionalData
  | _ => None
  end.

Definition aead_aads (t : list Event) : list bytes := omap aead_aad t.

(** ** A sample set of collaborators

    A deterministic stand-in for the collaborators, used to run the packer
    on concrete inputs: the randomness source hands out a counter byte,
    keys convert to themselves, [Easy] appends the nonce to the message,
    [Seal] returns the message and the AEAD appends sixteen [0x01] bytes. *)
Definition demo_handler : handler nat := fun o =>
  match o return nat -> Ans o * nat with
  | RandRead n =>
      fun s => ((replicate n (default x00 (Byte.of_nat s)), None), S s)
  | ConvertToEncryptionKey key => fun s => (Ok key, s)
  | PublicEd25519toCurve25519 key => fun s => (Ok key, s)
  | NewCryptoBox => fun s => (Ok tt, s)
  | BoxEasy payload nonce _ _ => fun s => (Ok (payload ++ nonce), s)
  | BoxSeal payload _ => fun s => (Ok payload, S s)
  | ChachaSeal _ _ plaintext _ =>
      fun s => (plaintext ++ replicate 16 x01, s)
  end.

Definition demo_payload : bytes := str "hello".
Definition demo_sender : bytes := str "sender-key".
Definition demo_recipients : list bytes :=
  [str "first-recipient"; x00 :: x00 :: str "second"].

(** Collaborators whose randomness source fails with [e]. *)
Definition rand_fails (e : error) : handler nat := fun o =>
  match o return nat -> Ans o * nat with
  | RandRead n => fun s => (([], Some e), s)
  | ConvertToEncryptionKey key => demo_handler (ConvertToEncryptionKey key)
  | PublicEd25519toCurve25519 key =>
      demo_handler (PublicEd25519toCurve25519 key)
  | NewCryptoBox => demo_handler NewCryptoBox
  | BoxEasy payload nonce theirPub myPub =>
      demo_handler (BoxEasy payload nonce theirPub myPub)
  | BoxSeal payload theirEncPub => demo_handler (BoxSeal payload theirEncPub)
  | ChachaSeal key nonce plaintext aad =>
      demo_handler (ChachaSeal key nonce plaintext aad)
  end.

(** Collaborators whose KMS fails to convert the sender key, with [e]. *)
Definition kms_fails (e : error) : handler nat := fun o =>
  match o return nat -> Ans o * nat with
  | RandRead n => demo_handler (RandRead n)
  | ConvertToEncryptionKey key => fun s => (Err e, s)
  | PublicEd25519toCurve25519 key =>
      demo_handler (PublicEd25519toCurve25519 key)
  | NewCryptoBox => demo_handler NewCryptoBox
  | BoxEasy payload nonce theirPub myPub =>
      demo_handler (BoxEasy payload nonce theirPub myPub)
  | BoxSeal payload theirEncPub => demo_handler (BoxSeal payload theirEncPub)
  | ChachaSeal key nonce plaintext aad =>
      demo_handler (ChachaSeal key nonce plaintext aad)
  end.

(** ** Failures *)

(** No call of the trace failed. *)
Definition clean (t : list Event) : Prop :=
  Forall (fun ev => failure ev = None) t.

(** The last call of the trace failed with [e], none before it failed. *)
Definition aborted (e : error) (t : list Event) : Prop :=
  exists t0 ev, t = t0 ++ [ev] /\ clean t0 /\ failure ev = Some e.

(** A program that stops at the first failing call and returns its error
    as it is. *)
Definition fail_fast {A} (p : Prog (result A)) : Prop :=
  forall (St : Type) (h : handler St) s r s' t,
    run h p s = (r, s', t) ->
    clean t \/ exists e, aborted e t /\ r = Done (Err e).

(** The stages of the error-handling section of the specification. *)
Inductive Stage : Type :=
| Randomness
| KeyConversion
| BoxOperation
| PayloadSealing.

Definition stage (o : Op) : Stage :=
  match o with
  | RandRead _ => Randomness
  | ConvertToEncryptionKey _ => KeyConversion
  | PublicEd25519toCurve25519 _ => KeyConversion
  | NewCryptoBox => BoxOperation
  | BoxEasy _ _ _ _ => BoxOperation
  | BoxSeal _ _ => BoxOperation
  | ChachaSeal _ _ _ _ => PayloadSealing
  end.

(** The error [Encrypt] returns tells the stage that failed: some
    classification of errors gives, for every failed call, the stage of the
    collaborator call that failed. *)
Definition stage_identifying (kind : error -> Stage) : Prop :=
  forall (St : Type) (h : handler St) payload sender keys s e s' t o a,
    run h (Encrypt payload sender keys) s = (Done (Err e), s', t) ->
    last t = Some (Ev o a) ->
    ans_error o a = Some e ->
    kind e = stage o.

(** ** Decoders *)

(** The position of [c] in an alphabet: the decode maps of both codecs. *)
Fixpoint index_of (c : byte) (alphabet : bytes) : option N :=
  match alphabet with
  | [] => None
  | x :: rest =>
      if Byte.eqb c x then Some 0%N else option_map N.succ (index_of c rest)
  end.

Definition byte_of_N (n : N) : byte := default x00 (Byte.of_N (n mod 256)).

Definition b64value (c : byte) : option N := index_of c encodeURL.

(** [base64.URLEncoding.DecodeString] on input free of line breaks: four
    digits give three bytes; the last quantum may end in one or two pad
    characters. *)
Fixpoint DecodeString (s : bytes) : option bytes :=
  match s with
  | [] => Some []
  | c1 :: c2 :: c3 :: c4 :: rest =>
      match b64value c1, b64value c2 with
      | Some v1, Some v2 =>
          let b1 := byte_of_N (v1 * 4 + v2 / 16) in
          match b64value c3, b64value c4, rest with
          | Some v3, Some v4, _ =>
              let b2 := byte_of_N (v2 mod 16 * 16 + v3 / 4) in
              let b3 := byte_of_N (v3 mod 4 * 64 + v4) in
              option_map (fun r => b1 :: b2 :: b3 :: r) (DecodeString rest)
          | Some v3, None, [] =>
              let b2 := byte_of_N (v2 mod 16 * 16 + v3 / 4) in
              if Byte.eqb c4 padChar then Some [b1; b2] else None
          | None, None, [] =>
              if Byte.eqb c3 padChar && Byte.eqb c4 padChar
              then Some [b1] else None
          | _, _, _ => None
          end
      | _, _ => None
      end
  | _ => None
  end.

Definition b58value (c : byte) : option N := index_of c b58alphabet.

(** [for i := len(b) - 1; i >= 0; i--]: the characters from the last to the
    first, [j] the power of the radix, [answer] the sum so far; an unknown
    character ends the decoding. *)
Fixpoint b58number (reversed : bytes) (j answer : N) : option N :=
  match reversed with
  | [] => Some answer
  | c :: rest =>
      match b58value c with
      | Some tmp => b58number rest (j * 58) (answer + j * tmp)
      | None => None
      end
  end.

(** [big.Int.Bytes]: the big-endian bytes of a number, none for zero; the
    loop runs at most once per bit. *)
Fixpoint Bytes (fuel : nat) (x : N) : bytes :=
  match fuel with
  | O => []
  | S fuel' =>
      if (0 <? x)%N then Bytes fuel' (x / 256) ++ [byte_of_N x] else []
  end.

(** [for numZeros = 0; numZeros < len(b); numZeros++ { if b[numZeros] != alphabetIdx0 { break } }] *)
Fixpoint numZeros (b : bytes) : nat :=
  match b with
  | c :: rest => if Byte.eqb c alphabetIdx0 then S (numZeros rest) else 0
  | [] => 0
  end.

(** [base58.Decode]: the empty slice for a text with a character outside
    the alphabet. *)
Definition base58_Decode (b : bytes) : bytes :=
  match b58number (rev b) 1 0 with
  | Some answer =>
      replicate (numZeros b) x00 ++ Bytes (N.to_nat (N.size answer)) answer
  | None => []
  end.

(** ** Reading the wire format back

    Modelled from the spec: the decoding half of the envelope codec is not
    part of the sources at hand.  The readers below accept the compact text
    the serializer above writes: fields in declaration order, no white
    space, string values free of escapes, as base64 and base58 text is. *)

(** [expect lit s]: [s] without its prefix [lit]. *)
Fixpoint expect (lit s : bytes) : option bytes :=
  match lit, s with
  | [], _ => Some s
  | c :: lit', x :: s' => if Byte.eqb c x then expect lit' s' else None
  | _ :: _, [] => None
  end.

(** The characters up to the closing quote, and what follows it. *)
Fixpoint string_body (s : bytes) : option (bytes * bytes) :=
  match s with
  | [] => None
  | c :: rest =>
      if Byte.eqb c quote then Some ([], rest)
      else if Byte.eqb c backslash then None
      else '(v, r) ← string_body rest; Some (c :: v, r)
  end.

Definition parse_string (s : bytes) : option (bytes * bytes) :=
  rest ← expect [quote] s; string_body rest.

(** A field with a string value: ["name":"value"]. *)
Definition parse_field (name : string) (s : bytes) : option (bytes * bytes) :=
  rest ← expect (json_field name []) s; parse_string rest.

Definition parse_recipient (s : bytes) : option (recipient * bytes) :=
  s ← expect (str "{") s;
  '(encrypted_key, s) ← parse_field "encrypted_key" s;
  s ← expect (str ",") s;
  s ← expect (json_field "header" []) s;
  s ← expect (str "{") s;
  '(kid, s) ← parse_field "kid" s;
  s ← expect (str ",") s;
  '(sender, s) ← parse_field "sender" s;
  s ← expect (str ",") s;
  '(iv, s) ← parse_field "iv" s;
  s ← expect (str "}}") s;
  Some ({| EncryptedKey := encrypted_key;
           Header := {| KID := kid; Sender := sender; IV := iv |} |}, s).

(** The elements of a non-empty array up to its closing bracket; every
    element takes at least one character, [fuel] bounds their number. *)
Fixpoint parse_recipients (fuel : nat) (s : bytes)
  : option (list recipient * bytes) :=
  match fuel with
  | O => None
  | S fuel' =>
      '(r, s) ← parse_recipient s;
      match s with
      | c :: s' =>
          if Byte.eqb c ","%byte
          then '(rs, s'') ← parse_recipients fuel' s'; Some (r :: rs, s'')
          else if Byte.eqb c "]"%byte then Some ([r], s')
          else None
      | [] => None
      end
  end.

Definition parse_recipient_list (s : bytes) : option (list recipient * bytes) :=
  s ← expect (str "[") s;
  match expect (str "]") s with
  | Some s' => Some ([], s')
  | None => parse_recipients (length s) s
  end.

Definition unmarshal_protected (s : bytes) : option protected :=
  s ← expect (str "{") s;
  '(enc, s) ← parse_field "enc" s;
  s ← expect (str ",") s;
  '(typ, s) ← parse_field "typ" s;
  s ← expect (str ",") s;
  '(alg, s) ← parse_field "alg" s;
  s ← expect (str ",") s;
  s ← expect (json_field "recipients" []) s;
  '(recipients, s) ← parse_recipient_list s;
  s ← expect (str "}") s;
  match s with
  | [] => Some {| Enc := enc; Typ := typ; Alg := alg;
                  Recipients := recipients |}
  | _ :: _ => None
  end.

Definition unmarshal_legacyEnvelope (s : bytes) : option legacyEnvelope :=
  s ← expect (str "{") s;
  '(protected, s) ← parse_field "protected" s;
  s ← expect (str ",") s;
  '(iv, s) ← parse_field "iv" s;
  s ← expect (str ",") s;
  '(ciphertext, s) ← parse_field "ciphertext" s;
  s ← expect (str ",") s;
  '(tag, s) ← parse_field "tag" s;
  s ← expect (str "}") s;
  match s with
  | [] => Some {| Protected := protected; envIV := iv;
                  CipherText := ciphertext; Tag := tag |}
  | _ :: _ => None
  end.

(** ** The decrypting side *)

(** Modelled from the spec: the collaborator contracts the decrypting side
    consumes ([EasyOpen], [SealOpen], the key conversions and the AEAD
    open); their code is not part of the sources at hand.  Each returns its
    result or fails. *)
Record Openers : Type := {
  (* the signing public key paired with a signing private key *)
  ed25519_Public : bytes -> bytes;
  (* the agreement private key of a signing private key *)
  SecretEd25519toCurve25519 : bytes -> option bytes;
  (* the agreement public key of a signing public key *)
  publicToCurve25519 : bytes -> option bytes;
  (* EasyOpen(box, nonce, peerPub, ownPriv) *)
  EasyOpen : bytes -> bytes -> bytes -> bytes -> option bytes;
  (* SealOpen(sealed, recipientPriv) *)
  SealOpen : bytes -> bytes -> option bytes;
  (* AEAD open of ciphertext-and-tag under key and nonce, with the
     additional data *)
  chacha_Open : bytes -> bytes -> bytes -> bytes -> option bytes
}.

(** The error kinds of the specification the decrypting side reports. *)
Definition SerializationFailure : error := errors_New "SerializationFailure".
Definition RecipientNotFound : error := errors_New "RecipientNotFound".
Definition KeyConversionFailure : error := errors_New "KeyConversionFailure".
Definition BoxOperationFailure : error := errors_New "BoxOperationFailure".
Definition AuthenticationFailure : error := errors_New "AuthenticationFailure".

Definition or_fail {A} (e : error) (o : option A) : result A :=
  match o with Some v => Ok v | None => Err e end.

Definition result_bind {A B} (r : result A) (f : A -> result B) : result B :=
  match r with Ok v => f v | Err e => Err e end.

Notation "'letR' x := m 'in' k" := (result_bind m (fun x => k))
  (at level 10, x name, m at level 200, k at level 200,
   format "'[v' 'letR'  x  :=  m  'in' '/' k ']'").

Fixpoint bytes_eqb (a b : bytes) : bool :=
  match a, b with
  | [], [] => true
  | x :: a', y :: b' => Byte.eqb x y && bytes_eqb a' b'
  | _, _ => false
  end.

(** Modelled from the spec: [Decrypt], the mandatory inverse of [Encrypt],
    whose code is not part of the sources at hand; the five steps of the
    Decrypter section of the specification. *)
Definition Decrypt (c : Openers) (envelope ownPrivateKey : bytes)
  : result (bytes * bytes) :=
  (* 1. parse the envelope and the protected header, find the own entry *)
  letR env := or_fail SerializationFailure
                (unmarshal_legacyEnvelope envelope) in
  letR protectedBytes := or_fail SerializationFailure
                           (DecodeString (Protected env)) in
  letR p := or_fail SerializationFailure
              (unmarshal_protected protectedBytes) in
  let ownKid := base58_Encode (ed25519_Public c ownPrivateKey) in
  letR entry := or_fail RecipientNotFound
                  (find (fun r => bytes_eqb (KID (Header r)) ownKid)
                     (Recipients p)) in
  (* 2. unseal the sender identity, convert it to its agreement form *)
  letR ownEncPriv := or_fail KeyConversionFailure
                       (SecretEd25519toCurve25519 c ownPrivateKey) in
  letR sealedSender := or_fail SerializationFailure
                         (DecodeString (Sender (Header entry))) in
  letR senderText := or_fail BoxOperationFailure
                       (SealOpen c sealedSender ownEncPriv) in
  let senderKey := base58_Decode senderText in
  letR senderEncPub := or_fail KeyConversionFailure
                         (publicToCurve25519 c senderKey) in
  (* 3. open the wrapped CEK *)
  letR wrapped := or_fail SerializationFailure
                    (DecodeString (EncryptedKey entry)) in
  letR wrapNonce := or_fail SerializationFailure
                      (DecodeString (IV (Header entry))) in
  letR cek := or_fail AuthenticationFailure
                (EasyOpen c wrapped wrapNonce senderEncPub ownEncPriv) in
  (* 4. open the payload, the protected header as transmitted being the
        additional data *)
  letR nonce := or_fail SerializationFailure (DecodeString (envIV env)) in
  letR cipherText := or_fail SerializationFailure
                       (DecodeString (CipherText env)) in
  letR tag := or_fail SerializationFailure (DecodeString (Tag env)) in
  letR payload := or_fail AuthenticationFailure
                    (chacha_Open c cek nonce (cipherText ++ tag)
                       (Protected env)) in
  (* 5. the plaintext and the sender key of step 2 *)
  Ok (payload, senderKey).

(** The boxes and seals the encrypting collaborators [h] make are opened by
    the openers [c], whenever the keys pair up: the functional contract of
    the cipher suite. *)
Record opens {St : Type} (h : handler St) (c : Openers) : Prop := {
  opens_easy :
    forall senderKey ownPrivateKey senderEncKey recEncKey senderEncPub
           ownEncPriv message nonce box s1 s2 s3,
      fst (h (ConvertToEncryptionKey senderKey) s1) = Ok senderEncKey ->
      fst (h (PublicEd25519toCurve25519 (ed25519_Public c ownPrivateKey)) s2)
        = Ok recEncKey ->
      fst (h (BoxEasy message nonce recEncKey senderEncKey) s3) = Ok box ->
      publicToCurve25519 c senderKey = Some senderEncPub ->
      SecretEd25519toCurve25519 c ownPrivateKey = Some ownEncPriv ->
      EasyOpen c box nonce senderEncPub ownEncPriv = Some message;
  opens_seal :
    forall ownPrivateKey recEncKey ownEncPriv message sealedMessage s1 s2,
      fst (h (PublicEd25519toCurve25519 (ed25519_Public c ownPrivateKey)) s1)
        = Ok recEncKey ->
      fst (h (BoxSeal message recEncKey) s2) = Ok sealedMessage ->
      SecretEd25519toCurve25519 c ownPrivateKey = Some ownEncPriv ->
      SealOpen c sealedMessage ownEncPriv = Some message;
  opens_aead :
    forall key nonce message aad s,
      chacha_Open c key nonce (fst (h (ChachaSeal key nonce message aad) s))
        aad = Some message
}.

(** Openers for the sample collaborators: keys are their own conversions,
    [EasyOpen] checks and drops the appended nonce, [SealOpen] returns the
    sealed bytes and the AEAD open drops the sixteen tag bytes. *)
Definition demo_openers : Openers :=
  {| ed25519_Public := fun priv => priv;
     SecretEd25519toCurve25519 := fun priv => Some priv;
     publicToCurve25519 := fun pub => Some pub;
     EasyOpen := fun box nonce _ _ =>
       let n := length box - length nonce in
       if bytes_eqb (drop n box) nonce then Some (take n box) else None;
     SealOpen := fun sealedMessage _ => Some sealedMessage;
     chacha_Open := fun _ _ sealedPayload _ =>
       Some (take (length sealedPayload - 16) sealedPayload) |}.

(** ** What the randomness source gave a call *)

(** The buffer a read left behind. *)
Definition read_buffer (ev : Event) : option bytes :=
  match ev with
  | Ev (RandRead n) a => Some (filled n (fst a))
  | _ => None
  end.

(** The payload nonce is the buffer of the first call, the CEK that of the
    second. *)
Definition payloadNonce (t : list Event) : option bytes :=
  t !! 0 ≫= read_buffer.

Definition contentKey (t : list Event) : option bytes :=
  t !! 1 ≫= read_buffer.

(** A second recipient of the sample run, and the empty payload. *)
Definition demo_second : bytes := x00 :: x00 :: str "second".
Definition empty_payload : bytes := [].

(** ** Well-formed values *)

(** A slice that does not start with a zero byte. *)
Definition canonical (b : bytes) : Prop :=
  match b with x :: _ => x <> x00 | [] => True end.

(** Structures whose strings are all plain. *)
Record plain_recipient (r : recipient) : Prop := {
  plain_EncryptedKey : plain (EncryptedKey r);
  plain_KID : plain (KID (Header r));
  plain_Sender : plain (Sender (Header r));
  plain_IV : plain (IV (Header r))
}.

Record plain_protected (p : protected) : Prop := {
  plain_Enc : plain (Enc p);
  plain_Typ : plain (Typ p);
  plain_Alg : plain (Alg p);
  plain_Recipients : Forall plain_recipient (Recipients p)
}.

Record plain_envelope (e : legacyEnvelope) : Prop := {
  plain_Protected : plain (Protected e);
  plain_envIV : plain (envIV e);
  plain_CipherText : plain (CipherText e);
  plain_Tag : plain (Tag e)
}.

(** ** A box that opens to one message and still repeats itself

    Collaborators as the sample ones, except for [Easy]: under the nonce
    [swap_N1] it exchanges the two keys [swap_K1] and [swap_K2], and leaves
    every other message, and every message under another nonce, as it is.
    Under each nonce it is one-to-one, so a box opens to one message. *)
Definition swap_K1 : bytes := replicate 32 "B"%byte.



(** ** What a program can ask for *)

(** Every call the program can make, whatever it is answered, is one of
    the operations [P] allows. *)
Fixpoint calls_only {A} (P : Op -> Prop) (p : Prog A) : Prop :=
  match p with
  | Call o k => P o /\ forall a, calls_only P (k a)
  | _ => True
  end.

(** The program makes at most [n] calls, whatever it is answered. *)
Fixpoint at_most {A} (n : nat) (p : Prog A) {struct p} : Prop :=
  match p with
  | Call o k =>
      match n with
      | O => False
      | S n' => forall a, at_most n' (k a)
      end
  | _ => True
  end.

Definition event_op (ev : Event) : Op :=
  match ev with Ev o _ => o end.

(** The sizes the cipher suite asks for: a 32-byte key and a 12-byte nonce
    for the AEAD, a 32-byte message and a 24-byte nonce for [Easy], reads of
    12, 32 or 24 bytes. *)
Definition well_sized (o : Op) : Prop :=
  match o with
  | RandRead n => n = 12 \/ n = 32 \/ n = 24
  | BoxEasy payload nonce _ _ => length payload = 32 /\ length nonce = 24
  | ChachaSeal key nonce _ _ => length key = 32 /\ length nonce = 12
  | _ => True
  end.

Definition not_sealing (o : Op) : Prop :=
  match o with
  | ChachaSeal _ _ _ _ => False
  | _ => True
  end.

(** The size of the buffer a read was given. *)
Definition read_size (ev : Event) : option nat :=
  match ev with
  | Ev (RandRead n) _ => Some n
  | _ => None
  end.

(** The content key a call was given: the message of [Easy], the key of the
    AEAD. *)
Definition cek_used (ev : Event) : option bytes :=
  match ev with
  | Ev (BoxEasy payload _ _ _) _ => Some payload
  | Ev (ChachaSeal key _ _ _) _ => Some key
  | _ => None
  end.

(** A byte of 7-bit text that is no control character below the space. *)
Definition textual (c : byte) : Prop :=
  (32 <= Byte.to_N c)%N /\ (Byte.to_N c < 128)%N.

(** Collaborators whose randomness source writes nothing and reports no
    error. *)
Definition silent_reader : handler nat := fun o =>
  match o return nat -> Ans o * nat with
  | RandRead n => fun s => (([], None), s)
  | ConvertToEncryptionKey key => demo_handler (ConvertToEncryptionKey key)
  | PublicEd25519toCurve25519 key =>
      demo_handler (PublicEd25519toCurve25519 key)
  | NewCryptoBox => demo_handler NewCryptoBox
  | BoxEasy payload nonce theirPub myPub =>
      demo_handler (BoxEasy payload nonce theirPub myPub)
  | BoxSeal payload theirEncPub => demo_handler (BoxSeal payload theirEncPub)
  | ChachaSeal key nonce plaintext aad =>
      demo_handler (ChachaSeal key nonce plaintext aad)
  end.

(** Collaborators whose cipher returns a sealed payload of four bytes. *)
Definition short_sealer : handler nat := fun o =>
  match o return nat -> Ans o * nat with
  | RandRead n => demo_handler (RandRead n)
  | ConvertToEncryptionKey key => demo_handler (ConvertToEncryptionKey key)
  | PublicEd25519toCurve25519 key =>
      demo_handler (PublicEd25519toCurve25519 key)
  | NewCryptoBox => demo_handler NewCryptoBox
  | BoxEasy payload nonce theirPub myPub =>
      demo_handler (BoxEasy payload nonce theirPub myPub)
  | BoxSeal payload theirEncPub => demo_handler (BoxSeal payload theirEncPub)
  | ChachaSeal key nonce plaintext aad => fun s => (replicate 4 x01, s)
  end.

(** What the AEAD returned, for a call of it. *)
Definition aead_output (ev : Event) : option bytes :=
  match ev with
  | Ev (ChachaSeal _ _ _ _) symPld => Some symPld
  | _ => None
  end.

(** * Properties *)

Arguments EncodeToString : simpl never.
Arguments base58_Encode : simpl never.
Arguments marshal_protected : simpl never.
Arguments marshal_legacyEnvelope : simpl never.
Arguments filled : simpl never.
Arguments str : simpl never.
Arguments bindE : simpl never.

(** ** The codecs on known texts *)

Example base58_Encode_hello :
  base58_Encode (str "Hello World!") = str "2NEpo7TZRRrLZSi2U".
Proof. vm_compute. reflexivity. Qed.

Example base58_Encode_leading_zeros :
  base58_Encode (x00 :: x00 :: str "abc") = str "11ZiCa".
Proof. vm_compute. reflexivity. Qed.

Example base58_Decode_leading_zeros :
  base58_Decode (str "11ZiCa") = x00 :: x00 :: str "abc".
Proof. vm_compute. reflexivity. Qed.

Example EncodeToString_padded :
  EncodeToString (str "Hello World!?") = str "SGVsbG8gV29ybGQhPw==".
Proof. vm_compute. reflexivity. Qed.

Example EncodeToString_url_alphabet :
  EncodeToString (str "Hello World!?>>") = str "SGVsbG8gV29ybGQhPz4-".
Proof. vm_compute. reflexivity. Qed.

Example DecodeString_padded :
  DecodeString (str "SGVsbG8gV29ybGQhPw==") = Some (str "Hello World!?").
Proof. vm_compute. reflexivity. Qed.

Example DecodeString_rejects_short : DecodeString (str "SGV") = None.
Proof. vm_compute. reflexivity. Qed.

Example json_string_escapes :
  json_string (str "a<b\")
  = quote :: str "a" ++ backslash :: str "u003cb" ++ [backslash; backslash; quote].
Proof. vm_compute. reflexivity. Qed.

(** ** Running programs *)

Lemma run_bind {St A B} (h : handler St) (m : Prog A) (f : A -> Prog B) s :
  run h (bind m f) s =
  match run h m s with
  | (Done a, s1, t1) =>
      match run h (f a) s1 with (r, s2, t2) => (r, s2, t1 ++ t2) end
  | (Panicked msg, s1, t1) => (Panicked msg, s1, t1)
  end.
Proof.
  revert s. induction m as [a|msg|o k IH]; intros s; simpl.
  - by destruct (run h (f a) s) as [[r s2] t2].
  - done.
  - destruct (h o s) as [a s1]. rewrite IH.
    destruct (run h (k a) s1) as [[[a'|msg] s2] t1]; [|done].
    by destruct (run h (f a') s2) as [[r s3] t2].
Qed.

Lemma run_bindE {St A B} (h : handler St) (m : Prog (result A))
    (f : A -> Prog (result B)) s :
  run h (bindE m f) s =
  match run h m s with
  | (Done (Ok v), s1, t1) =>
      match run h (f v) s1 with (r, s2, t2) => (r, s2, t1 ++ t2) end
  | (Done (Err e), s1, t1) => (Done (Err e), s1, t1)
  | (Panicked msg, s1, t1) => (Panicked msg, s1, t1)
  end.
Proof.
  unfold bindE. rewrite run_bind.
  destruct (run h m s) as [[[[v|e]|msg] s1] t1]; simpl; try done.
  by rewrite app_nil_r.
Qed.

Lemma run_call {St} (h : handler St) (o : Op) s :
  run h (call o) s = (Done (fst (h o s)), snd (h o s), [Ev o (fst (h o s))]).
Proof. unfold call. simpl. by destruct (h o s). Qed.

Lemma run_readRand {St} (h : handler St) n s :
  run h (readRand n) s =
  (Done (match snd (fst (h (RandRead n) s)) with
         | Some e => Err e
         | None => Ok (filled n (fst (fst (h (RandRead n) s))))
         end),
   snd (h (RandRead n) s),
   [Ev (RandRead n) (fst (h (RandRead n) s))]).
Proof.
  unfold readRand. simpl. destruct (h (RandRead n) s) as [[d [e|]] s1]; done.
Qed.

Lemma filled_length n data : length (filled n data) = n.
Proof.
  unfold filled. rewrite length_take, length_app, length_replicate. lia.
Qed.

(** ** Slice updates stay in range *)

Lemma slice_set_Some {A} (s : list A) i v :
  i < length s -> slice_set s i v = Some (<[i:=v]> s).
Proof. intros Hi. unfold slice_set. by rewrite decide_True. Qed.

Lemma recKeys_loop_total keys : forall i recKeys,
  i + length keys = length recKeys ->
  recKeys_loop i keys recKeys =
  Some (take i recKeys ++ map base58_Encode keys).
Proof.
  induction keys as [|key rest IH]; intros i recKeys Hlen; simpl in *.
  - rewrite app_nil_r, take_ge; [done | lia].
  - rewrite slice_set_Some by lia.
    rewrite IH by (rewrite length_insert; lia).
    f_equal. rewrite cons_middle, app_assoc. f_equal.
    rewrite (take_S_r _ _ (base58_Encode key)).
    + f_equal. rewrite take_insert_ge; [done | lia].
    + apply list_lookup_insert_eq. lia.
Qed.

Lemma recKeys_loop_make keys :
  recKeys_loop 0 keys (replicate (length keys) []) =
  Some (map base58_Encode keys).
Proof.
  rewrite recKeys_loop_total by (rewrite length_replicate; lia).
  by rewrite take_0.
Qed.

(** ** C1 *)

(** C1. With an empty [recipientPubKeys], [Encrypt] is the program that
    returns the empty-recipients error at once: under every behaviour of the
    collaborators the call returns that error, leaves their state as it was
    and records no call at all, so nothing is read from the randomness
    source and no cryptographic operation is performed. *)
Theorem Encrypt_empty_recipients :
  forall (payload sender : bytes),
    Encrypt payload sender [] = Ret (Err empty_recipients_error) /\
    forall (St : Type) (h : handler St) (s : St),
      run h (Encrypt payload sender []) s
      = (Done (Err empty_recipients_error), s, []).
Proof. intros payload sender. split; [reflexivity | intros; reflexivity]. Qed.

(** ** What one recipient entry is made of *)

Ltac answer h o s :=
  let a := fresh "a" in
  let s' := fresh "s" in
  let E := fresh "Hans" in
  destruct (h o s) as [a s'] eqn:E; simpl in *.

Lemma buildRecipient_Ok {St} (h : handler St) cek senderKey recKey s r s' t :
  run h (buildRecipient cek senderKey recKey) s = (Done (Ok r), s', t) ->
  exists w,
    t = recipient_events cek senderKey recKey w /\
    r = recipient_entry recKey w.
Proof.
  unfold buildRecipient, readRand, call, bindE. simpl.
  answer h (RandRead 24) s. destruct a as [nd [e|]]; simpl; [done|].
  answer h (ConvertToEncryptionKey senderKey) s0.
  destruct a as [senc|e]; simpl; [|done].
  answer h (PublicEd25519toCurve25519 recKey) s1.
  destruct a as [renc|e]; simpl; [|done].
  answer h NewCryptoBox s2. destruct a as [[]|e]; simpl; [|done].
  answer h (BoxEasy cek (filled 24 nd) renc senc) s3.
  destruct a as [ecek|e]; simpl; [|done].
  answer h (BoxSeal (base58_Encode senderKey) renc) s4.
  destruct a as [esnd|e]; simpl; [|done].
  intros [= <- <- <-].
  by exists {| nonceRead := nd; senderEncKey := senc; recEncKey := renc;
               encCEK := ecek; encSender := esnd |}.
Qed.

Lemma buildRecipients_loop_Ok {St} (h : handler St) cek senderKey keys :
  forall i acc s rs s' t,
    i + length keys = length acc ->
    run h (buildRecipients_loop cek senderKey i keys acc) s
      = (Done (Ok rs), s', t) ->
    exists ws,
      length ws = length keys /\
      rs = take i acc ++ zip_with recipient_entry keys ws /\
      t = concat (zip_with (recipient_events cek senderKey) keys ws).
Proof.
  induction keys as [|key rest IH]; intros i acc s rs s' t Hlen Hrun;
    simpl in Hlen; cbn [buildRecipients_loop] in Hrun.
  - injection Hrun as <- <- <-. exists []. split; [done|]. split; [|done].
    rewrite app_nil_r, take_ge; [done | lia].
  - rewrite run_bindE in Hrun.
    destruct (run h (buildRecipient cek senderKey key) s)
      as [[[[r|e]|msg] s1] t1] eqn:Hone; try done.
    rewrite slice_set_Some in Hrun by lia.
    destruct (run h (buildRecipients_loop cek senderKey (S i) rest
                       (<[i:=r]> acc)) s1) as [[r2 s2] t2] eqn:Hrest.
    injection Hrun as -> <- <-.
    apply IH in Hrest as (ws & Hws & -> & ->);
      [|rewrite length_insert; lia].
    apply buildRecipient_Ok in Hone as (w & -> & ->).
    exists (w :: ws). split; [simpl; lia|]. split; [|done].
    cbn [zip_with]. rewrite cons_middle, app_assoc. f_equal.
    rewrite (take_S_r _ _ (recipient_entry key w)).
    + f_equal. rewrite take_insert_ge; [done | lia].
    + apply list_lookup_insert_eq. lia.
Qed.

Lemma buildRecipients_Ok {St} (h : handler St) cek senderKey keys s rs s' t :
  run h (buildRecipients cek senderKey keys) s = (Done (Ok rs), s', t) ->
  exists ws,
    length ws = length keys /\
    rs = zip_with recipient_entry keys ws /\
    t = concat (zip_with (recipient_events cek senderKey) keys ws).
Proof.
  intros Hrun. apply buildRecipients_loop_Ok in Hrun as (ws & ? & -> & ->).
  - exists ws. by rewrite take_0.
  - rewrite length_replicate. lia.
Qed.

(** ** What a successful [Encrypt] is made of *)

Lemma run_buildEnvelope {St} (h : handler St) nonce payload cek p s :
  run h (buildEnvelope nonce payload cek p) s =
  if decide (length cek = chacha_KeySize) then
    let b64 := EncodeToString (marshal_protected p) in
    let '(symPld, s1) := h (ChachaSeal cek nonce payload b64) s in
    let n := length symPld - poly1305_TagSize in
    (if decide (length symPld < poly1305_TagSize)
     then Panicked "slice bounds out of range"
     else Done (Ok (marshal_legacyEnvelope
                      {| Protected := b64;
                         envIV := EncodeToString nonce;
                         CipherText := EncodeToString (take n symPld);
                         Tag := EncodeToString (drop n symPld) |})),
     s1, [Ev (ChachaSeal cek nonce payload b64) symPld])
  else (Done (Err (errors_New "chacha20poly1305: bad key length")), s, []).
Proof.
  unfold buildEnvelope, json_Marshal_protected, json_Marshal_legacyEnvelope,
    chacha_New, bindE.
  cbn [bind]. destruct (decide (length cek = chacha_KeySize)); [|done].
  cbn [bind run].
  match goal with |- context [h ?o s] => destruct (h o s) as [sym s1] end.
  by destruct (decide (length sym < poly1305_TagSize)).
Qed.

Lemma Encrypt_Ok {St} (h : handler St) payload sender keys s out s' t :
  run h (Encrypt payload sender keys) s = (Done (Ok out), s', t) ->
  exists nonceData cekData ws symPld,
    sealed payload sender keys t out nonceData cekData ws symPld.
Proof.
  unfold Encrypt. destruct (decide (length keys = 0)) as [|_]; [done|].
  rewrite recKeys_loop_make, run_bindE, run_readRand.
  destruct (h (RandRead chacha_NonceSize) s) as [[nd [e|]] s1];
    cbn [fst snd]; [done|].
  rewrite run_bindE, run_readRand.
  destruct (h (RandRead chacha_KeySize) s1) as [[cd [e|]] s2];
    cbn [fst snd]; [done|].
  rewrite run_bindE.
  destruct (run h (buildRecipients _ sender keys) s2)
    as [[[[rs|e]|msg] s3] t3] eqn:Hrec; try done.
  apply buildRecipients_Ok in Hrec as (ws & Hws & -> & ->).
  rewrite run_buildEnvelope, decide_True by apply filled_length.
  cbv zeta.
  match goal with |- context [h ?o s3] => destruct (h o s3) as [sym s4] end.
  destruct (decide (length sym < poly1305_TagSize)) as [|Hge]; [done|].
  intros [= <- <- <-]. exists nd, cd, ws, sym.
  split; [done | done | lia | done].
Qed.

(** ** The strings put into JSON need no escaping *)

Lemma json_string_plain s :
  plain s -> json_string s = quote :: s ++ [quote].
Proof.
  intros Hs. unfold json_string. f_equal. f_equal.
  induction Hs as [|c s Hc _ IH]; [done|]. simpl. rewrite IH.
  unfold json_char. rewrite Hc. by destruct (128 <=? Byte.to_N c)%N.
Qed.

Lemma nth_plain (alphabet : bytes) (d : byte) n :
  plain alphabet -> htmlSafe d = true -> htmlSafe (nth n alphabet d) = true.
Proof.
  intros Ha Hd. destruct (nth_in_or_default n alphabet d) as [Hin| ->]; [|done].
  unfold plain in Ha. rewrite List.Forall_forall in Ha. by apply Ha.
Qed.

Lemma plain_check s : forallb htmlSafe s = true -> plain s.
Proof.
  intros Hs. apply List.Forall_forall. by apply forallb_forall.
Qed.

Lemma encodeURL_plain : plain encodeURL.
Proof. by apply plain_check. Qed.

Lemma b58alphabet_plain : plain b58alphabet.
Proof. by apply plain_check. Qed.

Lemma EncodeToString_plain src : plain (EncodeToString src).
Proof.
  assert (Hd : forall v, htmlSafe (b64digit v) = true)
    by (intros v; by apply nth_plain; [apply encodeURL_plain|]).
  assert (Hp : htmlSafe padChar = true) by done.
  unfold plain.
  induction src as [src IH] using (induction_ltof1 _ (@length byte)).
  unfold ltof in IH.
  destruct src as [|a [|b [|c rest]]]; unfold EncodeToString;
    fold EncodeToString; repeat constructor; auto.
  apply IH. simpl. lia.
Qed.

Lemma b58digits_plain fuel : forall x, plain (b58digits fuel x).
Proof.
  induction fuel as [|fuel IH]; intros x; simpl; [constructor|].
  destruct (0 <? x)%N; constructor; [|apply IH].
  by apply nth_plain; [apply b58alphabet_plain|].
Qed.

Lemma b58zeros_plain b : plain (b58zeros b).
Proof.
  induction b as [|x b IH]; simpl; [constructor|].
  destruct (Byte.eqb x x00); by constructor.
Qed.

Lemma base58_Encode_plain b : plain (base58_Encode b).
Proof.
  unfold base58_Encode, plain. apply Forall_rev, Forall_app.
  split; [apply b58digits_plain | apply b58zeros_plain].
Qed.

(** ** The JSON text of the two structs *)

Lemma str_plain (s : string) : forallb htmlSafe (str s) = true -> plain (str s).
Proof. apply plain_check. Qed.

Lemma marshal_legacyEnvelope_text e :
  plain (Protected e) -> plain (envIV e) ->
  plain (CipherText e) -> plain (Tag e) ->
  marshal_legacyEnvelope e =
  json_object [json_field "protected" (quoted (Protected e));
               json_field "iv" (quoted (envIV e));
               json_field "ciphertext" (quoted (CipherText e));
               json_field "tag" (quoted (Tag e))].
Proof.
  intros H1 H2 H3 H4. unfold marshal_legacyEnvelope.
  by rewrite !json_string_plain.
Qed.

Lemma marshal_header_text recipients :
  marshal_protected (header recipients) =
  json_object [json_field "enc" (quoted (str "chacha20poly1305_ietf"));
               json_field "typ" (quoted (str "JWM/1.0"));
               json_field "alg" (quoted (str "Authcrypt"));
               json_field "recipients"
                 (json_array (map marshal_recipient recipients))].
Proof.
  unfold marshal_protected, header. cbn [Enc Typ Alg Recipients].
  rewrite !json_string_plain; [done | by apply str_plain ..].
Qed.

Lemma map_zip_with_entry {B} (f : recipient -> B) (g : bytes -> wrap -> B)
    keys ws :
  (forall k w, f (recipient_entry k w) = g k w) ->
  map f (zip_with recipient_entry keys ws) = zip_with g keys ws.
Proof.
  intros Hfg. revert ws. induction keys as [|k keys IH]; intros [|w ws];
    simpl; [done..|]. by rewrite Hfg, IH.
Qed.

Lemma zip_with_fst {A B C} (f : A -> C) (l : list A) (k : list B) :
  length k = length l -> zip_with (fun a _ => f a) l k = map f l.
Proof.
  revert k. induction l as [|a l IH]; intros [|b k] Hlen; simpl in *;
    try done. f_equal. apply IH. lia.
Qed.

(** ** The calls recorded in a trace *)

Lemma aead_aads_recipients cek senderKey keys ws :
  aead_aads (concat (zip_with (recipient_events cek senderKey) keys ws)) = [].
Proof.
  unfold aead_aads.
  revert ws. induction keys as [|k keys IH]; intros [|w ws]; simpl; done.
Qed.

Lemma sealed_last payload sender keys t out nd cd ws sym :
  sealed payload sender keys t out nd cd ws sym ->
  last t = Some (Ev (ChachaSeal (filled chacha_KeySize cd)
                       (filled chacha_NonceSize nd) payload
                       (protectedB64 (zip_with recipient_entry keys ws))) sym).
Proof.
  intros [_ -> _ _]. rewrite !app_comm_cons. apply last_snoc.
Qed.

(** ** C3 *)



(** ** C4 *)

(** C4. In a successful [Encrypt] the serialized protected header, whose
    base64 text is the envelope's [Protected] field, carries the three fixed
    identifiers and a recipient list with one entry per key of
    [recipientPubKeys], in the order of the input: the key identifiers of
    the entries are the base58 encodings of the keys, position by
    position. *)
Theorem Encrypt_protected_header :
  forall (St : Type) (h : handler St) payload sender keys s out s' t,
    run h (Encrypt payload sender keys) s = (Done (Ok out), s', t) ->
    exists p env,
      out = marshal_legacyEnvelope env /\
      Protected env = EncodeToString (marshal_protected p) /\
      Enc p = str "chacha20poly1305_ietf" /\
      Typ p = str "JWM/1.0" /\
      Alg p = str "Authcrypt" /\
      length (Recipients p) = length keys /\
      map (fun r => KID (Header r)) (Recipients p) = map base58_Encode keys /\
      marshal_protected p =
        json_object
          [json_field "enc" (quoted (str "chacha20poly1305_ietf"));
           json_field "typ" (quoted (str "JWM/1.0"));
           json_field "alg" (quoted (str "Authcrypt"));
           json_field "recipients"
             (json_array (map marshal_recipient (Recipients p)))].
Proof.
  intros St h payload sender keys s out s' t Hrun.
  apply Encrypt_Ok in Hrun as (nd & cd & ws & sym & [Hws Ht Htag ->]).
  eexists (header (zip_with recipient_entry keys ws)), _.
  split; [reflexivity|]. cbn [Protected Enc Typ Alg Recipients header].
  do 4 (split; [reflexivity|]). split; [|split].
  - rewrite length_zip_with. lia.
  - rewrite (map_zip_with_entry _ (fun k _ => base58_Encode k)) by done.
    by apply zip_with_fst.
  - apply marshal_header_text.
Qed.

Lemma Encrypt_protected_header_witness :
  exists out s' t,
    run demo_handler (Encrypt demo_payload demo_sender demo_recipients) 65
      = (Done (Ok out), s', t) /\
    exists p env,
      out = marshal_legacyEnvelope env /\
      Protected env = EncodeToString (marshal_protected p) /\
      Enc p = str "chacha20poly1305_ietf" /\
      Typ p = str "JWM/1.0" /\
      Alg p = str "Authcrypt" /\
      length (Recipients p) = length demo_recipients /\
      map (fun r => KID (Header r)) (Recipients p)
        = map base58_Encode demo_recipients /\
      marshal_protected p =
        json_object
          [json_field "enc" (quoted (str "chacha20poly1305_ietf"));
           json_field "typ" (quoted (str "JWM/1.0"));
           json_field "alg" (quoted (str "Authcrypt"));
           json_field "recipients"
             (json_array (map marshal_recipient (Recipients p)))].
Proof.
  eexists _, _, _. split; [vm_compute; reflexivity|].
  eapply (Encrypt_protected_header nat demo_handler demo_payload demo_sender
            demo_recipients 65).
  vm_compute. reflexivity.
Defined.

(** ** C5 *)



(** ** C6 *)

(** Every recorded answer is what the handler gave for that operation. *)
Lemma run_answers {St A} (h : handler St) (p : Prog A) :
  forall s r s' t,
    run h p s = (r, s', t) ->
    Forall (fun ev => match ev with
                      | Ev o a => exists s0, a = fst (h o s0)
                      end) t.
Proof.
  induction p as [a|msg|o k IH]; intros s r s' t; simpl.
  - intros [= <- <- <-]. constructor.
  - intros [= <- <- <-]. constructor.
  - destruct (h o s) as [a s1] eqn:Hans.
    destruct (run h (k a) s1) as [[r1 s2] t1] eqn:Hk.
    intros [= <- <- <-]. constructor.
    + exists s. by rewrite Hans.
    + by eapply IH.
Qed.

(** C6. When the cipher keeps its contract (what [Seal] returns is sixteen
    bytes longer than the plaintext), a successful [Encrypt] splits the
    sealed payload into the ciphertext followed by the 16-byte tag: the
    envelope's [Tag] is the base64 text of the trailing sixteen bytes, its
    [CipherText] that of the bytes before them, and the ciphertext is as
    long as the payload. *)
Theorem Encrypt_tag_split :
  forall (St : Type) (h : handler St) payload sender keys s out s' t,
    (forall key nonce plaintext aad s0,
        length (fst (h (ChachaSeal key nonce plaintext aad) s0))
        = length plaintext + poly1305_TagSize) ->
    run h (Encrypt payload sender keys) s = (Done (Ok out), s', t) ->
    exists env key nonce aad symPld cipherText tag,
      last t = Some (Ev (ChachaSeal key nonce payload aad) symPld) /\
      symPld = cipherText ++ tag /\
      length tag = poly1305_TagSize /\
      tag = drop (length symPld - poly1305_TagSize) symPld /\
      cipherText = take (length symPld - poly1305_TagSize) symPld /\
      out = marshal_legacyEnvelope env /\
      CipherText env = EncodeToString cipherText /\
      Tag env = EncodeToString tag /\
      length cipherText = length payload.
Proof.
  intros St h payload sender keys s out s' t Hseal Hrun.
  pose proof (run_answers _ _ _ _ _ _ Hrun) as Hans.
  apply Encrypt_Ok in Hrun as (nd & cd & ws & sym & Hs).
  pose proof (sealed_last _ _ _ _ _ _ _ _ _ Hs) as Hlast.
  destruct Hs as [Hws Ht Htag ->].
  assert (Hlen : length sym = length payload + poly1305_TagSize).
  { apply last_Some_elem_of in Hlast.
    rewrite Forall_forall in Hans. apply Hans in Hlast as [s0 ->].
    apply Hseal. }
  eexists _, _, _, _, sym, (take (length sym - poly1305_TagSize) sym),
    (drop (length sym - poly1305_TagSize) sym).
  split; [exact Hlast|].
  split; [symmetry; apply take_drop|].
  split; [rewrite length_drop; unfold poly1305_TagSize in *; lia|].
  do 2 (split; [reflexivity|]). split; [reflexivity|].
  cbn [CipherText Tag]. do 2 (split; [reflexivity|]).
  rewrite length_take. unfold poly1305_TagSize in *. lia.
Qed.

Lemma Encrypt_tag_split_witness :
  exists out s' t,
    run demo_handler (Encrypt demo_payload demo_sender demo_recipients) 65
      = (Done (Ok out), s', t) /\
    exists env key nonce aad symPld cipherText tag,
      last t = Some (Ev (ChachaSeal key nonce demo_payload aad) symPld) /\
      symPld = cipherText ++ tag /\
      length tag = poly1305_TagSize /\
      tag = drop (length symPld - poly1305_TagSize) symPld /\
      cipherText = take (length symPld - poly1305_TagSize) symPld /\
      out = marshal_legacyEnvelope env /\
      CipherText env = EncodeToString cipherText /\
      Tag env = EncodeToString tag /\
      length cipherText = length demo_payload.
Proof.
  eexists _, _, _. split; [vm_compute; reflexivity|].
  eapply (Encrypt_tag_split nat demo_handler demo_payload demo_sender
            demo_recipients 65).
  - intros key nonce plaintext aad s0. cbn [demo_handler fst].
    rewrite length_app. reflexivity.
  - vm_compute. reflexivity.
Defined.

(** ** C7 *)

Lemma concat_zip_with_lookup {A B C} (f : A -> B -> list C) l k i a b :
  l !! i = Some a -> k !! i = Some b ->
  exists t1 t2, concat (zip_with f l k) = t1 ++ f a b ++ t2.
Proof.
  revert k i. induction l as [|a' l IH]; intros [|b' k] [|i]; simpl;
    try done.
  - intros [= ->] [= ->]. by exists [], (concat (zip_with f l k)).
  - intros Ha Hb. destruct (IH k i Ha Hb) as (t1 & t2 & ->).
    exists (f a' b' ++ t1), t2. by rewrite <-app_assoc.
Qed.

(** C7. In a successful [Encrypt], the entry at each position of the
    protected header's recipient list is built for the key [recKey] at that
    position of [recipientPubKeys] by six consecutive calls: a read of a
    fresh 24-byte wrap nonce, the conversion of the sender key by the KMS,
    the conversion of [recKey] to its agreement form, the creation of the
    box, [Easy] of the CEK under that nonce for the converted recipient key
    and the converted sender key, and [Seal] of the base58 text of the
    sender key to the converted recipient key.  The entry's [kid] is the
    base58 text of [recKey], its [encrypted_key] the base64 text of the
    [Easy] box, its [sender] the base64 text of the [Seal] and its [iv] the
    base64 text of the wrap nonce. *)
Theorem Encrypt_recipient_entries :
  forall (St : Type) (h : handler St) payload sender keys s out s' t,
    run h (Encrypt payload sender keys) s = (Done (Ok out), s', t) ->
    exists recipients env cekData,
      let cek := filled chacha_KeySize cekData in
      out = marshal_legacyEnvelope env /\
      Protected env = EncodeToString (marshal_protected (header recipients)) /\
      t !! 1 = Some (Ev (RandRead chacha_KeySize) (cekData, None)) /\
      length recipients = length keys /\
      forall i recKey,
        keys !! i = Some recKey ->
        exists nonceData senderEncKey recEncKey encCEK encSender t1 t2,
          let nonce := filled 24 nonceData in
          length nonce = 24 /\
          t = t1
              ++ [ Ev (RandRead 24) (nonceData, None);
                   Ev (ConvertToEncryptionKey sender) (Ok senderEncKey);
                   Ev (PublicEd25519toCurve25519 recKey) (Ok recEncKey);
                   Ev NewCryptoBox (Ok tt);
                   Ev (BoxEasy cek nonce recEncKey senderEncKey) (Ok encCEK);
                   Ev (BoxSeal (base58_Encode sender) recEncKey)
                      (Ok encSender) ]
              ++ t2 /\
          recipients !! i =
            Some {| EncryptedKey := EncodeToString encCEK;
                    Header := {| KID := base58_Encode recKey;
                                 Sender := EncodeToString encSender;
                                 IV := EncodeToString nonce |} |}.
Proof.
  intros St h payload sender keys s out s' t Hrun.
  apply Encrypt_Ok in Hrun as (nd & cd & ws & sym & [Hws Ht Htag ->]).
  eexists (zip_with recipient_entry keys ws), _, cd. cbv zeta.
  split; [reflexivity|]. split; [reflexivity|].
  split; [by rewrite Ht|]. split; [rewrite length_zip_with; lia|].
  intros i recKey Hkey.
  destruct (lookup_lt_is_Some_2 ws i) as [w Hw].
  { apply lookup_lt_Some in Hkey. lia. }
  destruct (concat_zip_with_lookup
              (recipient_events (filled chacha_KeySize cd) sender)
              keys ws i recKey w Hkey Hw) as (t1 & t2 & Hcat).
  eexists (nonceRead w), (senderEncKey w), (recEncKey w), (encCEK w),
    (encSender w), (_ :: _ :: t1), (t2 ++ [_]).
  split; [apply filled_length|]. split.
  - rewrite Ht, Hcat. cbn [app]. do 2 f_equal.
    rewrite <-!app_assoc. reflexivity.
  - rewrite lookup_zip_with, Hkey. simpl. by rewrite Hw.
Qed.

Lemma Encrypt_recipient_entries_witness :
  exists out s' t,
    run demo_handler (Encrypt demo_payload demo_sender demo_recipients) 65
      = (Done (Ok out), s', t) /\
    exists recipients env cekData,
      let cek := filled chacha_KeySize cekData in
      out = marshal_legacyEnvelope env /\
      Protected env = EncodeToString (marshal_protected (header recipients)) /\
      t !! 1 = Some (Ev (RandRead chacha_KeySize) (cekData, None)) /\
      length recipients = length demo_recipients /\
      forall i recKey,
        demo_recipients !! i = Some recKey ->
        exists nonceData senderEncKey recEncKey encCEK encSender t1 t2,
          let nonce := filled 24 nonceData in
          length nonce = 24 /\
          t = t1
              ++ [ Ev (RandRead 24) (nonceData, None);
                   Ev (ConvertToEncryptionKey demo_sender) (Ok senderEncKey);
                   Ev (PublicEd25519toCurve25519 recKey) (Ok recEncKey);
                   Ev NewCryptoBox (Ok tt);
                   Ev (BoxEasy cek nonce recEncKey senderEncKey) (Ok encCEK);
                   Ev (BoxSeal (base58_Encode demo_sender) recEncKey)
                      (Ok encSender) ]
              ++ t2 /\
          recipients !! i =
            Some {| EncryptedKey := EncodeToString encCEK;
                    Header := {| KID := base58_Encode recKey;
                                 Sender := EncodeToString encSender;
                                 IV := EncodeToString nonce |} |}.
Proof.
  eexists _, _, _. split; [vm_compute; reflexivity|].
  eapply (Encrypt_recipient_entries nat demo_handler demo_payload demo_sender
            demo_recipients 65).
  vm_compute. reflexivity.
Defined.

(** ** C10 *)

(** C10. The [recKeys] slice is dead: filling it never goes out of range,
    so [Encrypt] and [Encrypt] without that loop are the same program, and
    under every behaviour of the collaborators the two return the same
    value and error, leave the same state and make the same calls. *)
Theorem Encrypt_recKeys_unused :
  forall (payload sender : bytes) (recipientPubKeys : list bytes),
    Encrypt payload sender recipientPubKeys
    = Encrypt_without_recKeys payload sender recipientPubKeys /\
    forall (St : Type) (h : handler St) (s : St),
      run h (Encrypt payload sender recipientPubKeys) s
      = run h (Encrypt_without_recKeys payload sender recipientPubKeys) s.
Proof.
  intros payload sender keys.
  assert (Heq : Encrypt payload sender keys
                = Encrypt_without_recKeys payload sender keys).
  { unfold Encrypt, Encrypt_without_recKeys.
    by rewrite recKeys_loop_make. }
  split; [exact Heq | intros; by rewrite Heq].
Qed.

(** ** C8 *)

Lemma fail_fast_Ret {A} (r : result A) : fail_fast (Ret r).
Proof. intros St h s r' s' t [= <- <- <-]. left. constructor. Qed.

Lemma fail_fast_Panic {A} msg : fail_fast (@Panic (result A) msg).
Proof. intros St h s r' s' t [= <- <- <-]. left. constructor. Qed.

Lemma aborted_cons e ev t :
  failure ev = None -> aborted e t -> aborted e (ev :: t).
Proof.
  intros Hev (t0 & ev' & -> & Hclean & Hfail).
  exists (ev :: t0), ev'. split; [done|]. split; [by constructor | done].
Qed.

Lemma fail_fast_Call {A} (o : Op) (k : Ans o -> Prog (result A)) :
  (forall a, ans_error o a = None -> fail_fast (k a)) ->
  (forall a e, ans_error o a = Some e -> k a = Ret (Err e)) ->
  fail_fast (Call o k).
Proof.
  intros Hok Herr St h s r s' t. simpl.
  destruct (h o s) as [a s1].
  destruct (run h (k a) s1) as [[r1 s2] t1] eqn:Hk.
  intros [= <- <- <-].
  destruct (ans_error o a) as [e|] eqn:Ha.
  - rewrite (Herr a e Ha) in Hk. injection Hk as <- <- <-.
    right. exists e. split; [|done]. exists [], (Ev o a).
    split; [done|]. split; [constructor | done].
  - destruct (Hok a Ha St h s1 r1 s2 t1 Hk) as [Hclean|(e & Hab & ->)].
    + left. by constructor.
    + right. exists e. split; [|done]. by apply aborted_cons.
Qed.

Lemma fail_fast_bindE {A B} (m : Prog (result A)) (f : A -> Prog (result B)) :
  fail_fast m -> (forall v, fail_fast (f v)) -> fail_fast (bindE m f).
Proof.
  intros Hm Hf St h s r s' t. rewrite run_bindE.
  destruct (run h m s) as [[r1 s1] t1] eqn:Hrun1.
  specialize (Hm St h s r1 s1 t1 Hrun1).
  destruct r1 as [[v|e]|msg].
  - destruct (run h (f v) s1) as [[r2 s2] t2] eqn:Hrun2.
    intros [= <- <- <-].
    destruct Hm as [Hclean|(e & _ & [=])].
    destruct (Hf v St h s1 r2 s2 t2 Hrun2)
      as [Hclean2|(e & (t0 & ev & -> & Hc0 & Hev) & ->)].
    + left. by apply Forall_app.
    + right. exists e. split; [|done]. exists (t1 ++ t0), ev.
      split; [by rewrite app_assoc|]. split; [by apply Forall_app | done].
  - intros [= <- <- <-]. destruct Hm as [Hclean|(e' & Hab & [= <-])].
    + by left.
    + right. by exists e.
  - intros [= <- <- <-]. destruct Hm as [Hclean|(e' & _ & [=])]. by left.
Qed.

Lemma fail_fast_readRand n : fail_fast (readRand n).
Proof.
  apply fail_fast_Call.
  - intros [d e] He. simpl in He. subst e. apply fail_fast_Ret.
  - intros [d e'] e He. simpl in He. by subst e'.
Qed.

Ltac fail_fast_call :=
  unfold call, bindE; cbn [bind]; apply fail_fast_Call;
  [ let H := fresh in
    intros [?|?] H; simpl in H; [clear H | discriminate H]
  | let H := fresh in
    intros [?|?] ? H; simpl in H; [discriminate H|];
    by injection H as -> ].

Lemma fail_fast_buildRecipient cek senderKey recKey :
  fail_fast (buildRecipient cek senderKey recKey).
Proof.
  unfold buildRecipient.
  apply fail_fast_bindE; [apply fail_fast_readRand|]. intros nonce.
  do 5 fail_fast_call. apply fail_fast_Ret.
Qed.

Lemma fail_fast_buildRecipients_loop cek senderKey keys :
  forall i acc, fail_fast (buildRecipients_loop cek senderKey i keys acc).
Proof.
  induction keys as [|key rest IH]; intros i acc;
    cbn [buildRecipients_loop].
  - apply fail_fast_Ret.
  - apply fail_fast_bindE; [apply fail_fast_buildRecipient|]. intros r.
    destruct (slice_set acc i r); [apply IH | apply fail_fast_Panic].
Qed.

Lemma fail_fast_buildEnvelope nonce payload cek p :
  fail_fast (buildEnvelope nonce payload cek p).
Proof.
  unfold buildEnvelope, json_Marshal_protected, json_Marshal_legacyEnvelope,
    bindE. cbn [bind].
  destruct (chacha_New cek) as [c|e]; [|apply fail_fast_Ret].
  apply fail_fast_Call; [|done]. intros sym _.
  destruct (decide _); [apply fail_fast_Panic | apply fail_fast_Ret].
Qed.

Lemma fail_fast_Encrypt payload sender keys :
  fail_fast (Encrypt payload sender keys).
Proof.
  unfold Encrypt. destruct (decide _); [apply fail_fast_Ret|].
  apply fail_fast_bindE; [apply fail_fast_readRand|]. intros nonce.
  apply fail_fast_bindE; [apply fail_fast_readRand|]. intros cek.
  destruct (recKeys_loop _ _ _); [|apply fail_fast_Panic].
  apply fail_fast_bindE; [apply fail_fast_buildRecipients_loop|].
  intros rs. apply fail_fast_buildEnvelope.
Qed.

(** C8, as the code has it.  Whatever the collaborators do, a call of
    [Encrypt] in which some collaborator call fails with [e] stops there:
    the failing call is the last one made, none before it failed, and the
    call returns [e] itself, unchanged, with a nil result, so neither a
    partial envelope nor a partial recipient list comes back.  The error
    carries nothing about the stage beyond what the collaborator put in
    it. *)
Theorem Encrypt_failure_aborts :
  forall (St : Type) (h : handler St) payload sender keys s r s' t ev e,
    run h (Encrypt payload sender keys) s = (r, s', t) ->
    In ev t ->
    failure ev = Some e ->
    (exists t0, t = t0 ++ [ev] /\ clean t0) /\
    exists res : result bytes,
      r = Done res /\ go_error res = Some e /\ go_value res = None.
Proof.
  intros St h payload sender keys s r s' t ev e Hrun Hin Hfail.
  destruct (fail_fast_Encrypt payload sender keys St h s r s' t Hrun)
    as [Hclean|(e' & (t0 & ev' & -> & Hclean & Hfail') & ->)].
  - unfold clean in Hclean. rewrite List.Forall_forall in Hclean.
    apply Hclean in Hin. congruence.
  - apply in_app_or in Hin as [Hin|[<-|[]]].
    + unfold clean in Hclean. rewrite List.Forall_forall in Hclean.
      apply Hclean in Hin. congruence.
    + assert (e' = e) as -> by congruence.
      split; [by exists t0|]. by exists (Err e).
Qed.

Lemma Encrypt_failure_aborts_witness :
  let e := errors_New "kms: key not found" in
  let ev := Ev (ConvertToEncryptionKey demo_sender) (Err e) in
  exists r s' t,
    run (kms_fails e) (Encrypt demo_payload demo_sender demo_recipients) 65
      = (r, s', t) /\
    In ev t /\
    failure ev = Some e /\
    (exists t0, t = t0 ++ [ev] /\ clean t0) /\
    exists res : result bytes,
      r = Done res /\ go_error res = Some e /\ go_value res = None.
Proof.
  intros e ev.
  assert (Hrun : { x | run (kms_fails e)
                         (Encrypt demo_payload demo_sender demo_recipients) 65
                       = x }) by (eexists; vm_compute; reflexivity).
  destruct Hrun as [[[r s'] t] Hrun].
  assert (Hin : In ev t).
  { revert Hrun. vm_compute. intros [= <- <- <-]. do 3 right. by left. }
  exists r, s', t. split; [exact Hrun|]. split; [exact Hin|].
  split; [reflexivity|].
  exact (Encrypt_failure_aborts nat (kms_fails e) demo_payload demo_sender
           demo_recipients 65 r s' t ev e Hrun Hin eq_refl).
Defined.

(** C8, as the claim has it, fails: no classification of the returned
    errors tells the stage, since a failure of the randomness source and a
    failure of the key conversion that hand back the same error make
    [Encrypt] return the same error. *)
Lemma Encrypt_error_does_not_identify_stage :
  ~ exists kind : error -> Stage, stage_identifying kind.
Proof.
  intros [kind Hkind].
  pose (e := errors_New "unavailable").
  assert (H1 : kind e = Randomness).
  { apply (Hkind nat (rand_fails e) demo_payload demo_sender demo_recipients
             65 e 65 [Ev (RandRead chacha_NonceSize) ([], Some e)]
             (RandRead chacha_NonceSize) ([], Some e));
      reflexivity. }
  assert (H2 : kind e = KeyConversion).
  { eapply (Hkind nat (kms_fails e) demo_payload demo_sender demo_recipients
              65 e _ _ (ConvertToEncryptionKey demo_sender) (Err e));
      [vm_compute; reflexivity | reflexivity | reflexivity]. }
  congruence.
Qed.

(** ** base64 decodes what it encoded *)

Ltac Zify.zify_post_hook ::= Z.to_euclidean_division_equations.

Lemma byte_of_N_eq (x : N) (a : byte) :
  (x mod 256 = Byte.to_N a)%N -> byte_of_N x = a.
Proof. intros Hx. unfold byte_of_N. by rewrite Hx, Byte.of_to_N. Qed.

Lemma to_N_lt (a : byte) : (Byte.to_N a < 256)%N.
Proof. pose proof (Byte.to_N_bounded a). lia. Qed.

Lemma b64value_digit (v : N) : b64value (b64digit v) = Some (v mod 64)%N.
Proof.
  assert (Hall : forallb (fun i =>
            match b64value (nth i encodeURL padChar) with
            | Some v => N.eqb v (N.of_nat i)
            | None => false
            end) (seq 0 64) = true) by (vm_compute; reflexivity).
  rewrite forallb_forall in Hall.
  assert (Hlt : (v mod 64 < 64)%N) by (apply N.mod_lt; lia).
  specialize (Hall (N.to_nat (v mod 64))).
  unfold b64digit.
  destruct (b64value (nth (N.to_nat (v mod 64)) encodeURL padChar)) as [w|].
  - f_equal. apply N.eqb_eq in Hall; [lia|]. apply in_seq. lia.
  - discriminate Hall. apply in_seq. lia.
Qed.

Lemma b64value_pad : b64value padChar = None.
Proof. reflexivity. Qed.

Lemma b64digit_not_pad (v : N) : Byte.eqb (b64digit v) padChar = false.
Proof.
  destruct (Byte.eqb (b64digit v) padChar) eqn:Heq; [|done].
  apply Byte.byte_dec_bl in Heq. pose proof (b64value_digit v) as Hv.
  rewrite Heq, b64value_pad in Hv. discriminate.
Qed.

Lemma DecodeString_EncodeToString (src : bytes) :
  DecodeString (EncodeToString src) = Some src.
Proof.
  induction src as [src IH] using (induction_ltof1 _ (@length byte)).
  unfold ltof in IH.
  destruct src as [|a [|b [|c rest]]]; unfold EncodeToString;
    fold EncodeToString.
  - reflexivity.
  - cbn [DecodeString]. rewrite !b64value_digit, b64value_pad.
    rewrite Byte.byte_dec_lb by reflexivity. cbn [andb].
    f_equal. f_equal. apply byte_of_N_eq.
    pose proof (to_N_lt a). lia.
  - cbn [DecodeString]. rewrite !b64value_digit, b64value_pad.
    rewrite Byte.byte_dec_lb by reflexivity.
    pose proof (to_N_lt a). pose proof (to_N_lt b).
    f_equal. f_equal; [|f_equal]; apply byte_of_N_eq; lia.
  - cbn [DecodeString]. rewrite !b64value_digit.
    rewrite IH by (simpl; lia). cbn [option_map].
    pose proof (to_N_lt a). pose proof (to_N_lt b). pose proof (to_N_lt c).
    f_equal. f_equal; [|f_equal; [|f_equal]]; apply byte_of_N_eq; lia.
Qed.

Lemma EncodeToString_inj (x y : bytes) :
  EncodeToString x = EncodeToString y -> x = y.
Proof.
  intros Heq. apply (f_equal DecodeString) in Heq.
  rewrite !DecodeString_EncodeToString in Heq. by injection Heq.
Qed.

(** ** base58 decodes what it encoded *)

Lemma b58value_digit (v : N) :
  (v < 58)%N -> b58value (b58digit v) = Some v.
Proof.
  intros Hv.
  assert (Hall : forallb (fun i =>
            match b58value (nth i b58alphabet alphabetIdx0) with
            | Some w => N.eqb w (N.of_nat i)
            | None => false
            end) (seq 0 58) = true) by (vm_compute; reflexivity).
  rewrite forallb_forall in Hall. specialize (Hall (N.to_nat v)).
  unfold b58digit.
  destruct (b58value (nth (N.to_nat v) b58alphabet alphabetIdx0)) as [w|].
  - f_equal. apply N.eqb_eq in Hall; [lia|]. apply in_seq. lia.
  - discriminate Hall. apply in_seq. lia.
Qed.

Lemma b58digit_not_zero (v : N) :
  (0 < v < 58)%N -> Byte.eqb (b58digit v) alphabetIdx0 = false.
Proof.
  intros Hv. destruct (Byte.eqb (b58digit v) alphabetIdx0) eqn:Heq; [|done].
  apply Byte.byte_dec_bl in Heq.
  pose proof (b58value_digit v (proj2 Hv)) as Hd. rewrite Heq in Hd.
  vm_compute in Hd. injection Hd as <-. lia.
Qed.

Lemma SetBytes_app (b : bytes) (x : byte) :
  SetBytes (b ++ [x]) = (SetBytes b * 256 + Byte.to_N x)%N.
Proof. unfold SetBytes. by rewrite fold_left_app. Qed.

Lemma SetBytes_fold (b : bytes) (acc : N) :
  fold_left (fun acc x => (acc * 256 + Byte.to_N x)%N) b acc
  = (acc * 256 ^ N.of_nat (length b) + SetBytes b)%N.
Proof.
  unfold SetBytes. revert acc.
  induction b as [|x b IH]; intros acc; cbn [fold_left length].
  - rewrite N.pow_0_r. lia.
  - rewrite IH, (IH (0 * 256 + Byte.to_N x)%N).
    rewrite Nat2N.inj_succ, N.pow_succ_r'. lia.
Qed.

Lemma SetBytes_cons (x : byte) (b : bytes) :
  SetBytes (x :: b)
  = (Byte.to_N x * 256 ^ N.of_nat (length b) + SetBytes b)%N.
Proof.
  unfold SetBytes at 1. cbn [fold_left]. rewrite SetBytes_fold. lia.
Qed.

Lemma SetBytes_bound (b : bytes) :
  (SetBytes b < 256 ^ N.of_nat (length b))%N.
Proof.
  induction b as [|x b IH].
  - vm_compute. reflexivity.
  - rewrite SetBytes_cons. cbn [length].
    rewrite Nat2N.inj_succ, N.pow_succ_r'.
    pose proof (to_N_lt x). nia.
Qed.

Lemma to_N_pos (x : byte) : x <> x00 -> (0 < Byte.to_N x)%N.
Proof.
  intros Hx. destruct (N.eq_dec (Byte.to_N x) 0%N) as [H0|]; [|lia].
  destruct Hx. apply (f_equal Byte.of_N) in H0.
  rewrite Byte.of_to_N in H0. by injection H0.
Qed.

Lemma SetBytes_lower (x : byte) (b : bytes) :
  x <> x00 -> (256 ^ N.of_nat (length b) <= SetBytes (x :: b))%N.
Proof.
  intros Hx. rewrite SetBytes_cons. apply to_N_pos in Hx. nia.
Qed.

Lemma Bytes_zero fuel : Bytes fuel 0 = [].
Proof. by destruct fuel. Qed.

Lemma Bytes_SetBytes (b : bytes) :
  forall fuel, canonical b -> length b <= fuel -> Bytes fuel (SetBytes b) = b.
Proof.
  induction b as [|x b IH] using rev_ind; intros fuel Hc Hlen.
  - apply Bytes_zero.
  - rewrite length_app in Hlen. cbn [length] in Hlen.
    destruct fuel as [|fuel]; [lia|]. rewrite SetBytes_app. cbn [Bytes].
    pose proof (to_N_lt x) as Hx.
    assert (Hpos : (0 < SetBytes b * 256 + Byte.to_N x)%N).
    { destruct b as [|y b]; simpl in Hc.
      - apply to_N_pos in Hc. cbn. lia.
      - pose proof (SetBytes_lower y b Hc).
        assert (0 < 256 ^ N.of_nat (length b))%N
          by (apply N.neq_0_lt_0, N.pow_nonzero; lia). lia. }
    apply N.ltb_lt in Hpos. rewrite Hpos.
    replace ((SetBytes b * 256 + Byte.to_N x) / 256)%N with (SetBytes b)
      by lia.
    rewrite IH; [| by destruct b | lia].
    f_equal. f_equal. apply byte_of_N_eq. lia.
Qed.

Lemma pow_256 (n : nat) : (256 ^ N.of_nat n = 2 ^ N.of_nat (8 * n))%N.
Proof.
  rewrite Nat2N.inj_mul, N.pow_mul_r. reflexivity.
Qed.

Lemma b58digits_nil fuel : b58digits fuel 0 = [].
Proof. by destruct fuel. Qed.

Lemma b58number_digits fuel :
  forall x j acc rest,
    (x < 2 ^ N.of_nat fuel)%N ->
    b58number (b58digits fuel x ++ rest) j acc
    = b58number rest (j * 58 ^ N.of_nat (length (b58digits fuel x)))
        (acc + j * x).
Proof.
  induction fuel as [|fuel IH]; intros x j acc rest Hx.
  - cbn in Hx. assert (x = 0%N) as -> by lia. cbn [b58digits app length].
    f_equal; cbn; lia.
  - cbn [b58digits]. destruct (0 <? x)%N eqn:Hpos.
    + cbn [app b58number length].
      rewrite b58value_digit by (apply N.mod_lt; lia).
      rewrite Nat2N.inj_succ, N.pow_succ_r' in Hx.
      rewrite IH by lia.
      rewrite Nat2N.inj_succ, N.pow_succ_r'. f_equal; [lia|].
      pose proof (N.div_mod x 58). lia.
    + apply N.ltb_ge in Hpos. assert (x = 0%N) as -> by lia.
      cbn [app length]. f_equal; cbn; lia.
Qed.

Lemma b58number_zeros z : forall j acc,
  b58number (replicate z alphabetIdx0) j acc = Some acc.
Proof.
  induction z as [|z IH]; intros j acc; [done|].
  cbn [replicate b58number].
  change (b58value alphabetIdx0) with (Some 0%N). cbn iota.
  rewrite IH. f_equal. lia.
Qed.

Lemma numZeros_replicate z l :
  numZeros (replicate z alphabetIdx0 ++ l) = z + numZeros l.
Proof. induction z as [|z IH]; [done|]. simpl. by rewrite IH. Qed.

Lemma numZeros_app l l' :
  l <> [] -> numZeros l = 0 -> numZeros (l ++ l') = 0.
Proof.
  destruct l as [|c l]; [done|]. intros _. simpl.
  by destruct (Byte.eqb c alphabetIdx0).
Qed.

Lemma numZeros_digits fuel :
  forall x, (x < 2 ^ N.of_nat fuel)%N -> numZeros (rev (b58digits fuel x)) = 0.
Proof.
  induction fuel as [|fuel IH]; intros x Hx; [done|].
  cbn [b58digits]. destruct (0 <? x)%N eqn:Hpos; [|done].
  apply N.ltb_lt in Hpos. cbn [rev].
  rewrite Nat2N.inj_succ, N.pow_succ_r' in Hx.
  destruct (N.eq_dec (x / 58)%N 0%N) as [Hq|Hq].
  - rewrite Hq, b58digits_nil. cbn [rev app numZeros].
    rewrite b58digit_not_zero; [done|].
    pose proof (N.div_mod x 58). pose proof (N.mod_lt x 58). lia.
  - apply numZeros_app; [|apply IH; lia].
    destruct fuel as [|fuel]; [cbn in Hx; lia|].
    cbn [b58digits].
    assert ((0 <? x / 58)%N = true) as -> by (apply N.ltb_lt; lia).
    cbn [rev]. by destruct (rev _).
Qed.

Lemma rev_replicate {A} n (x : A) : rev (replicate n x) = replicate n x.
Proof.
  induction n as [|n IH]; simpl; [done|]. rewrite IH. symmetry.
  apply replicate_cons_app.
Qed.

Lemma b58zeros_split (b : bytes) :
  exists b1,
    canonical b1 /\
    b = replicate (length (b58zeros b)) x00 ++ b1 /\
    b58zeros b = replicate (length (b58zeros b)) alphabetIdx0 /\
    SetBytes b = SetBytes b1.
Proof.
  induction b as [|x b (b1 & Hc & Hb & Hz & Hv)].
  - by exists [].
  - cbn [b58zeros]. destruct (Byte.eqb x x00) eqn:Hx.
    + apply Byte.byte_dec_bl in Hx as ->. exists b1. cbn [length replicate app].
      split; [done|]. split; [by rewrite <-Hb|]. split; [by rewrite <-Hz|].
      rewrite <-Hv, SetBytes_cons. cbn. lia.
    + exists (x :: b). split; [|done]. simpl. intros ->. discriminate.
Qed.

Lemma Bytes_size (b1 : bytes) :
  canonical b1 -> length b1 <= N.to_nat (N.size (SetBytes b1)).
Proof.
  destruct b1 as [|y b1]; [simpl; lia|]. intros Hc. simpl in Hc.
  pose proof (SetBytes_lower y b1 Hc) as Hlow. rewrite pow_256 in Hlow.
  assert (Hpos : (0 < SetBytes (y :: b1))%N).
  { assert (0 < 2 ^ N.of_nat (8 * length b1))%N
      by (apply N.neq_0_lt_0, N.pow_nonzero; lia). lia. }
  rewrite N.size_log2 by lia.
  apply N.log2_le_pow2 in Hlow; [|done]. cbn [length]. lia.
Qed.

Lemma base58_Decode_Encode (b : bytes) : base58_Decode (base58_Encode b) = b.
Proof.
  unfold base58_Decode, base58_Encode.
  destruct (b58zeros_split b) as (b1 & Hc & Hb & Hz & Hv).
  assert (Hx : (SetBytes b < 2 ^ N.of_nat (8 * length b))%N)
    by (rewrite <-pow_256; apply SetBytes_bound).
  rewrite rev_involutive, b58number_digits by done.
  rewrite Hz at 1. rewrite b58number_zeros.
  rewrite rev_app_distr, Hz, rev_replicate, numZeros_replicate.
  rewrite numZeros_digits by done.
  rewrite Nat.add_0_r, N.add_0_l, N.mul_1_l, Hv.
  rewrite Bytes_SetBytes; [by rewrite <-Hb | done | by apply Bytes_size].
Qed.

Lemma base58_Encode_inj (x y : bytes) :
  base58_Encode x = base58_Encode y -> x = y.
Proof.
  intros Heq. apply (f_equal base58_Decode) in Heq.
  by rewrite !base58_Decode_Encode in Heq.
Qed.

(** ** The readers invert the serializer *)

Lemma plain_not_special c :
  htmlSafe c = true -> Byte.eqb c quote = false /\ Byte.eqb c backslash = false.
Proof.
  unfold htmlSafe. rewrite !andb_true_iff, !negb_true_iff. tauto.
Qed.

Lemma string_body_plain v rest :
  plain v -> string_body (v ++ quote :: rest) = Some (v, rest).
Proof.
  induction 1 as [|c v Hc _ IH]; cbn [app string_body].
  - by rewrite Byte.byte_dec_lb.
  - destruct (plain_not_special c Hc) as [-> ->]. by rewrite IH.
Qed.

Lemma expect_app lit s : expect lit (lit ++ s) = Some s.
Proof.
  induction lit as [|c lit IH]; [done|]. cbn [app expect].
  by rewrite Byte.byte_dec_lb.
Qed.

Lemma parse_string_quoted v rest :
  plain v -> parse_string (quoted v ++ rest) = Some (v, rest).
Proof.
  intros Hv. unfold parse_string, quoted.
  change (quote :: v ++ [quote]) with ([quote] ++ v ++ [quote]).
  rewrite <-!app_assoc, expect_app. cbn [mbind option_bind app].
  by apply string_body_plain.
Qed.

Lemma parse_field_text name v rest :
  plain v ->
  parse_field name (json_field name [] ++ quoted v ++ rest) = Some (v, rest).
Proof.
  intros Hv. unfold parse_field. rewrite expect_app. cbn [mbind option_bind].
  by apply parse_string_quoted.
Qed.

(** Closed string literals, as the lists of bytes they are. *)
Ltac literals :=
  repeat match goal with
         | |- context [str ?s] =>
             let v := eval vm_compute in (str s) in change (str s) with v
         end.

(** Serialized text, flattened to one right-nested list. *)
Ltac flatten_text :=
  unfold json_object, json_array, json_field, quoted;
  cbn [json_commas]; literals;
  repeat first [rewrite <-app_assoc | progress cbn [app]].

Ltac read_literal := rewrite expect_app; cbn [mbind option_bind].

Ltac read_field Hplain :=
  rewrite parse_field_text by exact Hplain; cbn [mbind option_bind].

Lemma marshal_recipient_flat r rest :
  plain_recipient r ->
  marshal_recipient r ++ rest =
  str "{" ++ json_field "encrypted_key" [] ++ quoted (EncryptedKey r)
  ++ str "," ++ json_field "header" [] ++ str "{"
  ++ json_field "kid" [] ++ quoted (KID (Header r))
  ++ str "," ++ json_field "sender" [] ++ quoted (Sender (Header r))
  ++ str "," ++ json_field "iv" [] ++ quoted (IV (Header r))
  ++ str "}}" ++ rest.
Proof.
  intros [H1 H2 H3 H4]. unfold marshal_recipient, marshal_recipientHeader.
  rewrite !json_string_plain by done. fold (quoted (EncryptedKey r)).
  flatten_text. reflexivity.
Qed.

Lemma parse_recipient_marshal r rest :
  plain_recipient r ->
  parse_recipient (marshal_recipient r ++ rest) = Some (r, rest).
Proof.
  intros Hr. rewrite marshal_recipient_flat by done.
  destruct Hr as [H1 H2 H3 H4]. unfold parse_recipient.
  read_literal. read_field H1. do 3 read_literal. read_field H2.
  read_literal. read_field H3. read_literal. read_field H4. read_literal.
  by destruct r as [ek [kid sender iv]].
Qed.

Lemma marshal_recipient_head r :
  exists tail, marshal_recipient r = "{"%byte :: tail.
Proof. unfold marshal_recipient, json_object. eauto. Qed.

Lemma json_commas_recipients_length rs :
  length rs <= length (json_commas (map marshal_recipient rs)).
Proof.
  induction rs as [|r [|r' rs] IH]; [simpl; lia| |].
  - destruct (marshal_recipient_head r) as [tl Htl]. cbn [map json_commas].
    rewrite Htl. simpl. lia.
  - change (json_commas (map marshal_recipient (r :: r' :: rs)))
      with (marshal_recipient r
            ++ ","%byte :: json_commas (map marshal_recipient (r' :: rs))).
    rewrite length_app. cbn [length] in *. lia.
Qed.

Lemma parse_recipients_marshal rs :
  forall fuel rest,
    Forall plain_recipient rs -> rs <> [] -> length rs <= fuel ->
    parse_recipients fuel
      (json_commas (map marshal_recipient rs) ++ "]"%byte :: rest)
    = Some (rs, rest).
Proof.
  induction rs as [|r rs IH]; intros fuel rest Hall Hne Hfuel; [done|].
  apply Forall_cons in Hall as [Hr Hall].
  destruct fuel as [|fuel]; [simpl in Hfuel; lia|].
  cbn [parse_recipients]. destruct rs as [|r' rs].
  - cbn [map json_commas]. rewrite parse_recipient_marshal by done.
    reflexivity.
  - change (json_commas (map marshal_recipient (r :: r' :: rs)))
      with (marshal_recipient r
            ++ ","%byte :: json_commas (map marshal_recipient (r' :: rs))).
    rewrite <-app_assoc, parse_recipient_marshal by done.
    cbn [mbind option_bind app]. rewrite Byte.byte_dec_lb by reflexivity.
    rewrite IH; [done | done | done | simpl in *; lia].
Qed.

Lemma parse_recipient_list_marshal rs rest :
  Forall plain_recipient rs ->
  parse_recipient_list (json_array (map marshal_recipient rs) ++ rest)
  = Some (rs, rest).
Proof.
  intros Hall. unfold parse_recipient_list, json_array.
  change (str "[") with ["["%byte]. cbn [app expect].
  rewrite Byte.byte_dec_lb by reflexivity. cbn [mbind option_bind].
  destruct rs as [|r rs]; [reflexivity|].
  rewrite <-app_assoc. cbn [app].
  assert (Hhead : exists tl,
            json_commas (map marshal_recipient (r :: rs))
            ++ "]"%byte :: rest = "{"%byte :: tl).
  { destruct (marshal_recipient_head r) as [tl Htl].
    destruct rs as [|r' rs].
    - cbn [map json_commas]. rewrite Htl. eauto.
    - change (json_commas (map marshal_recipient (r :: r' :: rs)))
        with (marshal_recipient r
              ++ ","%byte :: json_commas (map marshal_recipient (r' :: rs))).
      rewrite Htl. eauto. }
  destruct Hhead as [tl Hhead].
  replace (expect (str "]") _) with (@None bytes) by (by rewrite Hhead).
  apply parse_recipients_marshal; [done | done |].
  rewrite length_app. pose proof (json_commas_recipients_length (r :: rs)).
  lia.
Qed.

Lemma unmarshal_protected_marshal p :
  plain_protected p -> unmarshal_protected (marshal_protected p) = Some p.
Proof.
  intros [H1 H2 H3 H4].
  assert (Hflat : marshal_protected p =
    str "{" ++ json_field "enc" [] ++ quoted (Enc p)
    ++ str "," ++ json_field "typ" [] ++ quoted (Typ p)
    ++ str "," ++ json_field "alg" [] ++ quoted (Alg p)
    ++ str "," ++ json_field "recipients" []
    ++ json_array (map marshal_recipient (Recipients p)) ++ str "}" ++ []).
  { unfold marshal_protected. rewrite !json_string_plain by done.
    fold (quoted (Enc p)).
    generalize (json_array (map marshal_recipient (Recipients p))).
    intros arr. flatten_text. reflexivity. }
  rewrite Hflat. unfold unmarshal_protected.
  read_literal. read_field H1. read_literal. read_field H2.
  read_literal. read_field H3. do 2 read_literal.
  rewrite parse_recipient_list_marshal by done. cbn [mbind option_bind].
  read_literal. by destruct p.
Qed.

Lemma unmarshal_legacyEnvelope_marshal e :
  plain_envelope e ->
  unmarshal_legacyEnvelope (marshal_legacyEnvelope e) = Some e.
Proof.
  intros [H1 H2 H3 H4].
  assert (Hflat : marshal_legacyEnvelope e =
    str "{" ++ json_field "protected" [] ++ quoted (Protected e)
    ++ str "," ++ json_field "iv" [] ++ quoted (envIV e)
    ++ str "," ++ json_field "ciphertext" [] ++ quoted (CipherText e)
    ++ str "," ++ json_field "tag" [] ++ quoted (Tag e) ++ str "}" ++ []).
  { rewrite marshal_legacyEnvelope_text by done. flatten_text. reflexivity. }
  rewrite Hflat. unfold unmarshal_legacyEnvelope.
  read_literal. read_field H1. read_literal. read_field H2.
  read_literal. read_field H3. read_literal. read_field H4.
  read_literal. by destruct e.
Qed.

Lemma marshal_legacyEnvelope_inj e1 e2 :
  plain_envelope e1 -> plain_envelope e2 ->
  marshal_legacyEnvelope e1 = marshal_legacyEnvelope e2 -> e1 = e2.
Proof.
  intros H1 H2 Heq. apply (f_equal unmarshal_legacyEnvelope) in Heq.
  rewrite !unmarshal_legacyEnvelope_marshal in Heq by done.
  by injection Heq.
Qed.

(** ** C2 *)

Lemma bytes_eqb_eq a b : bytes_eqb a b = true <-> a = b.
Proof.
  revert b. induction a as [|x a IH]; intros [|y b]; simpl; try done.
  rewrite andb_true_iff, IH. split.
  - intros [Hxy ->]. by apply Byte.byte_dec_bl in Hxy as ->.
  - intros [= -> ->]. split; [by apply Byte.byte_dec_lb | done].
Qed.

Lemma plain_recipient_entry recKey w :
  plain_recipient (recipient_entry recKey w).
Proof.
  split; cbn; auto using EncodeToString_plain, base58_Encode_plain.
Qed.

Lemma plain_entries keys ws :
  Forall plain_recipient (zip_with recipient_entry keys ws).
Proof.
  revert ws. induction keys as [|k keys IH]; intros [|w ws]; simpl;
    try constructor; auto using plain_recipient_entry.
Qed.

Lemma plain_header rs :
  Forall plain_recipient rs -> plain_protected (header rs).
Proof. intros Hrs. split; cbn; [by apply plain_check .. | done]. Qed.

Lemma find_entry (ownKey : bytes) keys :
  forall ws,
    length ws = length keys ->
    In ownKey keys ->
    exists i w,
      keys !! i = Some ownKey /\ ws !! i = Some w /\
      find (fun r => bytes_eqb (KID (Header r)) (base58_Encode ownKey))
        (zip_with recipient_entry keys ws)
      = Some (recipient_entry ownKey w).
Proof.
  induction keys as [|k keys IH]; intros [|w ws] Hlen Hin; simpl in *;
    try done.
  destruct (bytes_eqb (base58_Encode k) (base58_Encode ownKey)) eqn:Hk.
  - apply bytes_eqb_eq, base58_Encode_inj in Hk as ->. by exists 0, w.
  - destruct Hin as [->|Hin].
    + assert (Hrefl : bytes_eqb (base58_Encode ownKey) (base58_Encode ownKey)
                      = true) by by apply bytes_eqb_eq.
      congruence.
    + destruct (IH ws ltac:(lia) Hin) as (i & w' & Hi & Hw & Hfind).
      by exists (S i), w'.
Qed.

Lemma answered {St} (h : handler St) (t : list Event) o (a : Ans o) :
  Forall (fun ev => match ev with
                    | Ev o a => exists s0, a = fst (h o s0)
                    end) t ->
  In (Ev o a) t -> exists s0, a = fst (h o s0).
Proof.
  intros Hall Hin. rewrite List.Forall_forall in Hall. exact (Hall _ Hin).
Qed.

(** C2.  Take collaborators whose boxes, seals and sealed payloads the
    openers open (the contract of the cipher suite), a recipient whose
    signing public key is among [recipientPubKeys] and whose private key
    converts to an agreement key, and a sender key that converts to its
    agreement form.  Then [Decrypt], given the envelope a successful
    [Encrypt] returned and the recipient's private key, returns exactly the
    payload and the sender key.  No condition on the payload is needed: the
    empty payload round-trips as well. *)
Theorem Decrypt_Encrypt :
  forall (St : Type) (h : handler St) (c : Openers)
         payload sender keys s envelope s' t
         ownPrivateKey ownEncPriv senderEncPub,
    opens h c ->
    run h (Encrypt payload sender keys) s = (Done (Ok envelope), s', t) ->
    In (ed25519_Public c ownPrivateKey) keys ->
    SecretEd25519toCurve25519 c ownPrivateKey = Some ownEncPriv ->
    publicToCurve25519 c sender = Some senderEncPub ->
    Decrypt c envelope ownPrivateKey = Ok (payload, sender).
Proof.
  intros St h c payload sender keys s envelope s' t
    ownPrivateKey ownEncPriv senderEncPub Hopens Hrun Hin Hpriv Hpub.
  pose proof (run_answers _ _ _ _ _ _ Hrun) as Hans.
  apply Encrypt_Ok in Hrun as (nd & cd & ws & sym & Hs).
  pose proof (sealed_last _ _ _ _ _ _ _ _ _ Hs) as Hlast.
  destruct Hs as [Hws Ht Htag ->].
  destruct (find_entry _ keys ws Hws Hin) as (i & w & Hi & Hw & Hfind).
  destruct (concat_zip_with_lookup
              (recipient_events (filled chacha_KeySize cd) sender)
              keys ws i _ w Hi Hw) as (t1 & t2 & Hcat).
  assert (Hev : forall ev,
             In ev (recipient_events (filled chacha_KeySize cd) sender
                      (ed25519_Public c ownPrivateKey) w) -> In ev t).
  { intros ev Hev. rewrite Ht, Hcat. do 2 right.
    rewrite !in_app_iff. auto. }
  destruct (answered h t _ _ Hans
              (Hev (Ev (ConvertToEncryptionKey sender) (Ok (senderEncKey w)))
                 ltac:(simpl; tauto))) as [s1 Hconv].
  destruct (answered h t _ _ Hans
              (Hev (Ev (PublicEd25519toCurve25519
                          (ed25519_Public c ownPrivateKey))
                       (Ok (recEncKey w))) ltac:(simpl; tauto)))
    as [s2 Hcurve].
  destruct (answered h t _ _ Hans
              (Hev (Ev (BoxEasy (filled chacha_KeySize cd) (wrapNonce w)
                          (recEncKey w) (senderEncKey w)) (Ok (encCEK w)))
                 ltac:(simpl; tauto))) as [s3 Heasy].
  destruct (answered h t _ _ Hans
              (Hev (Ev (BoxSeal (base58_Encode sender) (recEncKey w))
                       (Ok (encSender w))) ltac:(simpl; tauto)))
    as [s4 Hseal].
  apply last_Some_elem_of, list_elem_of_In in Hlast.
  destruct (answered h t _ _ Hans Hlast) as [s5 Hsym].
  unfold Decrypt.
  rewrite unmarshal_legacyEnvelope_marshal
    by (split; cbn; apply EncodeToString_plain).
  cbn [or_fail result_bind Protected envIV CipherText Tag].
  unfold protectedB64 at 1. rewrite DecodeString_EncodeToString.
  cbn [or_fail result_bind].
  rewrite unmarshal_protected_marshal by apply plain_header, plain_entries.
  cbn [or_fail result_bind header Recipients]. rewrite Hfind.
  cbn [or_fail result_bind recipient_entry Header Sender EncryptedKey IV].
  rewrite Hpriv. cbn [or_fail result_bind].
  rewrite !DecodeString_EncodeToString. cbn [or_fail result_bind].
  rewrite (opens_seal h c Hopens ownPrivateKey (recEncKey w) ownEncPriv
             (base58_Encode sender) (encSender w) s2 s4)
    by (by symmetry).
  cbn [or_fail result_bind]. rewrite base58_Decode_Encode, Hpub.
  cbn [or_fail result_bind].
  rewrite (opens_easy h c Hopens sender ownPrivateKey (senderEncKey w)
             (recEncKey w) senderEncPub ownEncPriv
             (filled chacha_KeySize cd) (wrapNonce w) (encCEK w) s1 s2 s3)
    by (by symmetry).
  cbn [or_fail result_bind]. rewrite take_drop, Hsym.
  by rewrite (opens_aead h c Hopens).
Qed.

Lemma demo_opens : opens demo_handler demo_openers.
Proof.
  split.
  - intros senderKey ownPrivateKey senderEncKey recEncKey senderEncPub
      ownEncPriv message nonce box s1 s2 s3 _ _ Hbox _ _.
    cbn in Hbox. injection Hbox as <-. cbn [EasyOpen demo_openers].
    rewrite length_app, Nat.add_sub, drop_app_length, take_app_length.
    assert (bytes_eqb nonce nonce = true) as -> by by apply bytes_eqb_eq.
    done.
  - intros ownPrivateKey recEncKey ownEncPriv message sealedMessage s1 s2
      _ Hseal _. cbn in Hseal. by injection Hseal as <-.
  - intros key nonce message aad s. cbn [chacha_Open demo_openers demo_handler fst].
    rewrite length_app, length_replicate, Nat.add_sub.
    by rewrite take_app_length.
Qed.

Lemma Decrypt_Encrypt_witness :
  exists envelope s' t,
    opens demo_handler demo_openers /\
    run demo_handler (Encrypt demo_payload demo_sender demo_recipients) 65
      = (Done (Ok envelope), s', t) /\
    In (ed25519_Public demo_openers demo_second) demo_recipients /\
    SecretEd25519toCurve25519 demo_openers demo_second = Some demo_second /\
    publicToCurve25519 demo_openers demo_sender = Some demo_sender /\
    Decrypt demo_openers envelope demo_second
      = Ok (demo_payload, demo_sender).
Proof.
  eexists _, _, _. split; [exact demo_opens|].
  split; [vm_compute; reflexivity|].
  split; [right; left; reflexivity|].
  split; [reflexivity|]. split; [reflexivity|].
  eapply (Decrypt_Encrypt nat demo_handler demo_openers demo_payload
            demo_sender demo_recipients 65 _ _ _ demo_second demo_second
            demo_sender demo_opens).
  - vm_compute. reflexivity.
  - right. left. reflexivity.
  - reflexivity.
  - reflexivity.
Defined.

(** ** C9 *)

Lemma sealed_reads payload sender keys t out nd cd ws sym :
  sealed payload sender keys t out nd cd ws sym ->
  payloadNonce t = Some (filled chacha_NonceSize nd) /\
  contentKey t = Some (filled chacha_KeySize cd).
Proof. intros [_ -> _ _]. split; reflexivity. Qed.







(** * Further properties of the packer *)

(** ** Calls and traces *)

Lemma calls_only_bind {A B} (P : Op -> Prop) (m : Prog A) (f : A -> Prog B) :
  calls_only P m -> (forall a, calls_only P (f a)) ->
  calls_only P (bind m f).
Proof.
  intros Hm Hf. induction m as [a|msg|o k IH]; simpl in *; [done | done |].
  destruct Hm as [Ho Hk]. split; [done|]. intros a. by apply IH.
Qed.

Lemma calls_only_bindE {A B} (P : Op -> Prop) (m : Prog (result A))
    (f : A -> Prog (result B)) :
  calls_only P m -> (forall v, calls_only P (f v)) ->
  calls_only P (bindE m f).
Proof.
  intros Hm Hf. apply calls_only_bind; [done|].
  intros [v|e]; simpl; [apply Hf | done].
Qed.

Lemma calls_only_run {St A} (P : Op -> Prop) (h : handler St) (p : Prog A) :
  calls_only P p ->
  forall s, Forall (fun ev => P (event_op ev)) (run h p s).2.
Proof.
  induction p as [a|msg|o k IH]; intros Hp s; simpl; [constructor ..|].
  destruct Hp as [Ho Hk]. destruct (h o s) as [a s1].
  specialize (IH a (Hk a) s1).
  destruct (run h (k a) s1) as [[r s2] t]. by constructor.
Qed.

Lemma calls_only_impl {A} (P Q : Op -> Prop) (p : Prog A) :
  (forall o, P o -> Q o) -> calls_only P p -> calls_only Q p.
Proof.
  intros HPQ. induction p as [a|msg|o k IH]; simpl; [done | done |].
  intros [Ho Hk]. split; [by apply HPQ|]. intros a. by apply IH.
Qed.

Lemma at_most_mono {A} (p : Prog A) :
  forall n m, n <= m -> at_most n p -> at_most m p.
Proof.
  induction p as [a|msg|o k IH]; intros n m Hnm; simpl; [done | done |].
  destruct n as [|n]; [done|]. destruct m as [|m]; [lia|].
  intros Hk a. apply (IH a n m); [lia | done].
Qed.

Lemma at_most_bind {A B} (m : Prog A) (f : A -> Prog B) :
  forall a b,
    at_most a m -> (forall x, at_most b (f x)) -> at_most (a + b) (bind m f).
Proof.
  induction m as [x|msg|o k IH]; intros a b Hm Hf; simpl in *.
  - apply (at_most_mono _ b); [lia | done].
  - done.
  - destruct a as [|a]; [done|]. simpl. intros x. by apply IH.
Qed.

Lemma at_most_bindE {A B} (m : Prog (result A)) (f : A -> Prog (result B)) a b :
  at_most a m -> (forall v, at_most b (f v)) -> at_most (a + b) (bindE m f).
Proof.
  intros Hm Hf. apply at_most_bind; [done|].
  intros [v|e]; [apply Hf | by destruct b].
Qed.

Lemma at_most_run {St A} (h : handler St) (p : Prog A) :
  forall n s, at_most n p -> length (run h p s).2 <= n.
Proof.
  induction p as [a|msg|o k IH]; intros n s Hp; simpl; [lia | lia |].
  destruct n as [|n]; [done|]. destruct (h o s) as [a s1].
  specialize (IH a n s1 (Hp a)).
  destruct (run h (k a) s1) as [[r s2] t]. simpl in *. lia.
Qed.

(** ** The sizes of keys and nonces *)

Lemma well_sized_buildRecipient cek senderKey recKey :
  length cek = 32 ->
  calls_only well_sized (buildRecipient cek senderKey recKey).
Proof.
  intros Hcek. unfold buildRecipient, readRand, call, bindE. cbn [bind].
  split; [by right; right|]. intros [d [e|]]; cbn; [done|].
  split; [done|]. intros [senc|e]; cbn; [|done].
  split; [done|]. intros [renc|e]; cbn; [|done].
  split; [done|]. intros [[]|e]; cbn; [|done].
  split; [split; [done | apply filled_length]|]. intros [ecek|e]; cbn; [|done].
  split; [done|]. by intros [esnd|e].
Qed.

Lemma well_sized_buildRecipients_loop cek senderKey keys :
  length cek = 32 ->
  forall i acc,
    calls_only well_sized (buildRecipients_loop cek senderKey i keys acc).
Proof.
  intros Hcek. induction keys as [|key rest IH]; intros i acc;
    cbn [buildRecipients_loop]; [done|].
  apply calls_only_bindE; [by apply well_sized_buildRecipient|].
  intros r. by destruct (slice_set acc i r).
Qed.

Lemma well_sized_buildEnvelope nonce payload cek p :
  length nonce = 12 ->
  calls_only well_sized (buildEnvelope nonce payload cek p).
Proof.
  intros Hnonce.
  unfold buildEnvelope, json_Marshal_protected, json_Marshal_legacyEnvelope,
    chacha_New, bindE. cbn [bind].
  destruct (decide (length cek = chacha_KeySize)) as [Hcek|]; [|done].
  cbn [bind calls_only well_sized]. split; [done|]. intros sym.
  by destruct (decide _).
Qed.

(** X1. Whatever the collaborators do, and however few bytes the randomness
    source writes, every call [Encrypt] makes has the sizes the cipher suite
    asks for: the AEAD gets a 32-byte key and a 12-byte nonce, every [Easy]
    a 32-byte message and a 24-byte nonce, every read a buffer of 12, 32 or
    24 bytes. *)
Theorem Encrypt_sizes :
  forall (St : Type) (h : handler St) payload sender keys s,
    Forall (fun ev => well_sized (event_op ev))
      (run h (Encrypt payload sender keys) s).2.
Proof.
  intros St h payload sender keys s. apply calls_only_run.
  unfold Encrypt. destruct (decide (length keys = 0)); [done|].
  rewrite recKeys_loop_make. unfold readRand, bindE at 1 2. cbn [bind].
  split; [by left|]. intros [nd [e|]]; cbn [snd fst bind]; [done|].
  split; [by right; left|]. intros [cd [e|]]; cbn [snd fst bind]; [done|].
  apply calls_only_bindE.
  - apply well_sized_buildRecipients_loop, filled_length.
  - intros rs. apply well_sized_buildEnvelope, filled_length.
Qed.

(** ** How many calls are made *)

Lemma at_most_readRand n : at_most 1 (readRand n).
Proof. intros [d [e|]]; done. Qed.

Lemma at_most_call o : at_most 1 (call o).
Proof. by intros a. Qed.

Lemma at_most_buildRecipient cek senderKey recKey :
  at_most 6 (buildRecipient cek senderKey recKey).
Proof.
  unfold buildRecipient.
  apply (at_most_bindE _ _ 1 5); [apply at_most_readRand|]. intros nonce.
  apply (at_most_bindE _ _ 1 4); [apply at_most_call|]. intros senc.
  apply (at_most_bindE _ _ 1 3); [apply at_most_call|]. intros renc.
  apply (at_most_bindE _ _ 1 2); [apply at_most_call|]. intros box.
  apply (at_most_bindE _ _ 1 1); [apply at_most_call|]. intros ecek.
  apply (at_most_bindE _ _ 1 0); [apply at_most_call|]. by intros esnd.
Qed.

Lemma at_most_buildRecipients_loop cek senderKey keys :
  forall i acc,
    at_most (6 * length keys)
      (buildRecipients_loop cek senderKey i keys acc).
Proof.
  induction keys as [|key rest IH]; intros i acc;
    cbn [buildRecipients_loop]; [done|].
  replace (6 * length (key :: rest)) with (6 + 6 * length rest)
    by (cbn [length]; lia).
  apply at_most_bindE; [apply at_most_buildRecipient|].
  intros r. destruct (slice_set acc i r); [apply IH|].
  by destruct (6 * length rest).
Qed.

Lemma at_most_buildEnvelope nonce payload cek p :
  at_most 1 (buildEnvelope nonce payload cek p).
Proof.
  unfold buildEnvelope, json_Marshal_protected, json_Marshal_legacyEnvelope,
    chacha_New, bindE. cbn [bind].
  destruct (decide (length cek = chacha_KeySize)); [|done].
  cbn [bind at_most]. intros sym. by destruct (decide _).
Qed.

(** X2. Whatever the collaborators do, a call of [Encrypt] with [n]
    recipients makes at most [6 * n + 3] calls on them. *)
Theorem Encrypt_call_bound :
  forall (St : Type) (h : handler St) payload sender keys s,
    length (run h (Encrypt payload sender keys) s).2 <= 6 * length keys + 3.
Proof.
  intros St h payload sender keys s. apply at_most_run.
  unfold Encrypt. destruct (decide (length keys = 0)).
  { by destruct (6 * length keys + 3). }
  rewrite recKeys_loop_make.
  replace (6 * length keys + 3) with (1 + (1 + (6 * length keys + 1)))
    by lia.
  apply at_most_bindE; [apply at_most_readRand|]. intros nonce.
  apply at_most_bindE; [apply at_most_readRand|]. intros cek.
  apply at_most_bindE; [apply at_most_buildRecipients_loop|].
  intros rs. apply at_most_buildEnvelope.
Qed.

Lemma recipient_events_length cek senderKey keys :
  forall ws,
    length ws = length keys ->
    length (concat (zip_with (recipient_events cek senderKey) keys ws))
    = 6 * length keys.
Proof.
  induction keys as [|k keys IH]; intros [|w ws] Hlen; simpl in *;
    try done. rewrite IH by lia. lia.
Qed.

Lemma recipient_events_reads cek senderKey keys :
  forall ws,
    length ws = length keys ->
    omap read_size (concat (zip_with (recipient_events cek senderKey) keys ws))
    = replicate (length keys) 24.
Proof.
  induction keys as [|k keys IH]; intros [|w ws] Hlen; simpl in *;
    try done. f_equal. apply IH. lia.
Qed.

Lemma recipient_events_cek cek senderKey keys :
  forall ws,
    length ws = length keys ->
    omap cek_used (concat (zip_with (recipient_events cek senderKey) keys ws))
    = replicate (length keys) cek.
Proof.
  induction keys as [|k keys IH]; intros [|w ws] Hlen; simpl in *;
    try done. f_equal. apply IH. lia.
Qed.

(** X3. A successful [Encrypt] with [n] recipients makes exactly
    [6 * n + 3] calls, and draws randomness itself [n + 2] times: 12 bytes
    for the payload nonce, 32 for the CEK, then 24 for the wrap nonce of
    each recipient, in this order. *)
Theorem Encrypt_call_count :
  forall (St : Type) (h : handler St) payload sender keys s out s' t,
    run h (Encrypt payload sender keys) s = (Done (Ok out), s', t) ->
    length t = 6 * length keys + 3 /\
    omap read_size t = 12 :: 32 :: replicate (length keys) 24.
Proof.
  intros St h payload sender keys s out s' t Hrun.
  apply Encrypt_Ok in Hrun as (nd & cd & ws & sym & [Hws Ht Htag _]).
  rewrite Ht. split.
  - cbn [length]. rewrite length_app, recipient_events_length by done.
    simpl. lia.
  - change (omap read_size (?a :: ?b :: ?l)) with (12 :: 32 :: omap read_size l).
    rewrite omap_app, recipient_events_reads by done.
    by rewrite app_nil_r.
Qed.

Lemma Encrypt_call_count_witness :
  exists out s' t,
    run demo_handler (Encrypt demo_payload demo_sender demo_recipients) 65
      = (Done (Ok out), s', t) /\
    length t = 6 * length demo_recipients + 3 /\
    omap read_size t = 12 :: 32 :: replicate (length demo_recipients) 24.
Proof.
  eexists _, _, _. split; [vm_compute; reflexivity|].
  eapply (Encrypt_call_count nat demo_handler demo_payload demo_sender
            demo_recipients 65).
  vm_compute. reflexivity.
Defined.

(** X4. In a successful [Encrypt] one content key serves throughout: the
    message of every [Easy] call and the key of the AEAD call are the same
    32 bytes, the buffer the second read left. *)
Theorem Encrypt_one_content_key :
  forall (St : Type) (h : handler St) payload sender keys s out s' t,
    run h (Encrypt payload sender keys) s = (Done (Ok out), s', t) ->
    exists cek,
      contentKey t = Some cek /\
      length cek = 32 /\
      omap cek_used t = replicate (length keys) cek ++ [cek].
Proof.
  intros St h payload sender keys s out s' t Hrun.
  apply Encrypt_Ok in Hrun as (nd & cd & ws & sym & [Hws Ht Htag _]).
  exists (filled chacha_KeySize cd). rewrite Ht.
  split; [reflexivity|]. split; [apply filled_length|].
  change (omap cek_used (?a :: ?b :: ?l)) with (omap cek_used l).
  by rewrite omap_app, recipient_events_cek.
Qed.

Lemma Encrypt_one_content_key_witness :
  exists out s' t,
    run demo_handler (Encrypt demo_payload demo_sender demo_recipients) 65
      = (Done (Ok out), s', t) /\
    exists cek,
      contentKey t = Some cek /\
      length cek = 32 /\
      omap cek_used t = replicate (length demo_recipients) cek ++ [cek].
Proof.
  eexists _, _, _. split; [vm_compute; reflexivity|].
  eapply (Encrypt_one_content_key nat demo_handler demo_payload demo_sender
            demo_recipients 65).
  vm_compute. reflexivity.
Defined.

(** ** Short reads *)

Lemma filled_short n data :
  length data <= n -> filled n data = data ++ replicate (n - length data) x00.
Proof.
  intros Hlen. unfold filled. apply take_ge.
  rewrite length_app, length_replicate. lia.
Qed.

(** X5. [Encrypt] looks at the error of a read only, never at the count: in
    a successful call the AEAD key and nonce are the buffers of the first
    two reads as the randomness source left them, so when the source wrote
    fewer bytes than asked, the rest of the key, or of the nonce, is zero
    bytes. *)
Theorem Encrypt_short_reads :
  forall (St : Type) (h : handler St) payload sender keys s out s' t,
    run h (Encrypt payload sender keys) s = (Done (Ok out), s', t) ->
    exists nonceData cekData key nonce aad symPld,
      t !! 0 = Some (Ev (RandRead chacha_NonceSize) (nonceData, None)) /\
      t !! 1 = Some (Ev (RandRead chacha_KeySize) (cekData, None)) /\
      last t = Some (Ev (ChachaSeal key nonce payload aad) symPld) /\
      (length nonceData <= 12 ->
       nonce = nonceData ++ replicate (12 - length nonceData) x00) /\
      (length cekData <= 32 ->
       key = cekData ++ replicate (32 - length cekData) x00).
Proof.
  intros St h payload sender keys s out s' t Hrun.
  apply Encrypt_Ok in Hrun as (nd & cd & ws & sym & Hs).
  pose proof (sealed_last _ _ _ _ _ _ _ _ _ Hs) as Hlast.
  destruct Hs as [Hws Ht Htag _].
  eexists nd, cd, _, _, _, sym.
  split; [by rewrite Ht|]. split; [by rewrite Ht|]. split; [exact Hlast|].
  split; intros Hlen; by apply filled_short.
Qed.

Lemma Encrypt_short_reads_witness :
  exists out s' t,
    run silent_reader (Encrypt demo_payload demo_sender demo_recipients) 65
      = (Done (Ok out), s', t) /\
    exists nonceData cekData key nonce aad symPld,
      t !! 0 = Some (Ev (RandRead chacha_NonceSize) (nonceData, None)) /\
      t !! 1 = Some (Ev (RandRead chacha_KeySize) (cekData, None)) /\
      last t = Some (Ev (ChachaSeal key nonce demo_payload aad) symPld) /\
      (length nonceData <= 12 ->
       nonce = nonceData ++ replicate (12 - length nonceData) x00) /\
      (length cekData <= 32 ->
       key = cekData ++ replicate (32 - length cekData) x00).
Proof.
  eexists _, _, _. split; [vm_compute; reflexivity|].
  eapply (Encrypt_short_reads nat silent_reader demo_payload demo_sender
            demo_recipients 65).
  vm_compute. reflexivity.
Defined.

(** ** Panics *)

Lemma buildRecipient_no_panic {St} (h : handler St) cek senderKey recKey s :
  exists res, (run h (buildRecipient cek senderKey recKey) s).1.1 = Done res.
Proof.
  unfold buildRecipient, readRand, call, bindE. simpl.
  answer h (RandRead 24) s. destruct a as [nd [e|]]; simpl; [by eexists|].
  answer h (ConvertToEncryptionKey senderKey) s0.
  destruct a as [senc|e]; simpl; [|by eexists].
  answer h (PublicEd25519toCurve25519 recKey) s1.
  destruct a as [renc|e]; simpl; [|by eexists].
  answer h NewCryptoBox s2. destruct a as [[]|e]; simpl; [|by eexists].
  answer h (BoxEasy cek (filled 24 nd) renc senc) s3.
  destruct a as [ecek|e]; simpl; [|by eexists].
  answer h (BoxSeal (base58_Encode senderKey) renc) s4.
  destruct a as [esnd|e]; simpl; by eexists.
Qed.

Lemma buildRecipients_loop_no_panic {St} (h : handler St) cek senderKey keys :
  forall i acc s,
    i + length keys = length acc ->
    exists res,
      (run h (buildRecipients_loop cek senderKey i keys acc) s).1.1 = Done res.
Proof.
  induction keys as [|key rest IH]; intros i acc s Hlen; simpl in Hlen;
    cbn [buildRecipients_loop]; [by eexists|].
  rewrite run_bindE.
  destruct (buildRecipient_no_panic h cek senderKey key s) as [res Hres].
  destruct (run h (buildRecipient cek senderKey key) s) as [[r1 s1] t1].
  simpl in Hres. subst r1. destruct res as [r|e]; [|by eexists].
  rewrite slice_set_Some by lia.
  destruct (IH (S i) (<[i:=r]> acc) s1) as [res Hres];
    [rewrite length_insert; lia|].
  destruct (run h (buildRecipients_loop cek senderKey (S i) rest
                     (<[i:=r]> acc)) s1) as [[r2 s2] t2].
  by exists res.
Qed.

(** X6. As long as the cipher returns at least the sixteen bytes of a tag,
    no call of [Encrypt] panics: neither of the two loops that fill a slice
    by index leaves its range, and the tag is cut from a slice that holds
    it. *)
Theorem Encrypt_no_panic :
  forall (St : Type) (h : handler St) payload sender keys s,
    (forall key nonce plaintext aad s0,
        poly1305_TagSize
        <= length (fst (h (ChachaSeal key nonce plaintext aad) s0))) ->
    exists res, (run h (Encrypt payload sender keys) s).1.1 = Done res.
Proof.
  intros St h payload sender keys s Hseal.
  unfold Encrypt. destruct (decide (length keys = 0)); [by eexists|].
  rewrite recKeys_loop_make, run_bindE, run_readRand.
  destruct (h (RandRead chacha_NonceSize) s) as [[nd [e|]] s1];
    cbn [fst snd]; [by eexists|].
  rewrite run_bindE, run_readRand.
  destruct (h (RandRead chacha_KeySize) s1) as [[cd [e|]] s2];
    cbn [fst snd]; [by eexists|].
  rewrite run_bindE.
  destruct (buildRecipients_loop_no_panic h (filled chacha_KeySize cd) sender
              keys 0 (replicate (length keys) zero_recipient) s2)
    as [res Hres]; [rewrite length_replicate; lia|].
  unfold buildRecipients.
  destruct (run h (buildRecipients_loop _ sender 0 keys _) s2)
    as [[r3 s3] t3]. simpl in Hres. subst r3.
  destruct res as [rs|e]; [|by eexists].
  rewrite run_buildEnvelope, decide_True by apply filled_length. cbv zeta.
  match goal with
  | |- context [h ?o s3] =>
      pose proof (Hseal _ _ _ _ s3 : poly1305_TagSize <= length (fst (h o s3)));
      destruct (h o s3) as [sym s4]
  end.
  simpl in *. rewrite decide_False by lia. by eexists.
Qed.

Lemma Encrypt_no_panic_witness :
  exists res,
    (run demo_handler (Encrypt demo_payload demo_sender demo_recipients) 65).1.1
    = Done res.
Proof.
  apply (Encrypt_no_panic nat demo_handler demo_payload demo_sender
           demo_recipients 65).
  intros key nonce plaintext aad s0. cbn [demo_handler fst].
  rewrite length_app, length_replicate. unfold poly1305_TagSize. lia.
Defined.

(** ** How a call of [Encrypt] can end *)

Lemma not_sealing_buildRecipients_loop cek senderKey keys :
  forall i acc,
    calls_only not_sealing (buildRecipients_loop cek senderKey i keys acc).
Proof.
  induction keys as [|key rest IH]; intros i acc;
    cbn [buildRecipients_loop]; [done|].
  apply calls_only_bindE.
  - unfold buildRecipient, readRand, call, bindE. cbn [bind].
    split; [done|]. intros [d [e|]]; cbn; [done|].
    split; [done|]. intros [senc|e]; cbn; [|done].
    split; [done|]. intros [renc|e]; cbn; [|done].
    split; [done|]. intros [[]|e]; cbn; [|done].
    split; [done|]. intros [ecek|e]; cbn; [|done].
    split; [done|]. by intros [esnd|e].
  - intros r. by destruct (slice_set acc i r).
Qed.

Lemma not_sealing_aads t :
  Forall (fun ev => not_sealing (event_op ev)) t -> aead_aads t = [].
Proof.
  unfold aead_aads. induction 1 as [|[o a] t Ho _ IH]; [done|].
  destruct o; simpl in *; done.
Qed.

Lemma not_sealing_last t :
  Forall (fun ev => not_sealing (event_op ev)) t ->
  last t ≫= aead_output = None.
Proof.
  intros Hall. destruct (last t) as [[o a]|] eqn:Hlast; [|done].
  apply last_Some_elem_of in Hlast. rewrite Forall_forall in Hall.
  apply Hall in Hlast. by destruct o.
Qed.

Lemma clean_recipient_events cek senderKey recKey w :
  clean (recipient_events cek senderKey recKey w).
Proof. repeat constructor. Qed.

Lemma buildRecipient_Err {St} (h : handler St) cek senderKey recKey s e s' t :
  run h (buildRecipient cek senderKey recKey) s = (Done (Err e), s', t) ->
  aborted e t.
Proof.
  unfold buildRecipient, readRand, call, bindE. simpl.
  answer h (RandRead 24) s. destruct a as [nd [e0|]]; simpl.
  { intros [= <- <- <-]. exists [], (Ev (RandRead 24) (nd, Some e0)).
    split; [done|]. split; [constructor | done]. }
  answer h (ConvertToEncryptionKey senderKey) s0.
  destruct a as [senc|e0]; simpl.
  2:{ intros [= <- <- <-]. eexists [_], (Ev (ConvertToEncryptionKey _) (Err e0)).
      split; [reflexivity|]. split; [by repeat constructor | done]. }
  answer h (PublicEd25519toCurve25519 recKey) s1.
  destruct a as [renc|e0]; simpl.
  2:{ intros [= <- <- <-].
      eexists [_; _], (Ev (PublicEd25519toCurve25519 _) (Err e0)).
      split; [reflexivity|]. split; [by repeat constructor | done]. }
  answer h NewCryptoBox s2. destruct a as [[]|e0]; simpl.
  2:{ intros [= <- <- <-]. eexists [_; _; _], (Ev NewCryptoBox (Err e0)).
      split; [reflexivity|]. split; [by repeat constructor | done]. }
  answer h (BoxEasy cek (filled 24 nd) renc senc) s3.
  destruct a as [ecek|e0]; simpl.
  2:{ intros [= <- <- <-]. eexists [_; _; _; _], (Ev (BoxEasy _ _ _ _) (Err e0)).
      split; [reflexivity|]. split; [by repeat constructor | done]. }
  answer h (BoxSeal (base58_Encode senderKey) renc) s4.
  destruct a as [esnd|e0]; simpl; [done|].
  intros [= <- <- <-]. eexists [_; _; _; _; _], (Ev (BoxSeal _ _) (Err e0)).
  split; [reflexivity|]. split; [by repeat constructor | done].
Qed.

Lemma buildRecipients_loop_Err {St} (h : handler St) cek senderKey keys :
  forall i acc s e s' t,
    run h (buildRecipients_loop cek senderKey i keys acc) s
      = (Done (Err e), s', t) ->
    aborted e t.
Proof.
  induction keys as [|key rest IH]; intros i acc s e s' t;
    cbn [buildRecipients_loop]; [done|].
  rewrite run_bindE.
  destruct (run h (buildRecipient cek senderKey key) s)
    as [[[[r|e1]|msg] s1] t1] eqn:Hone; [| |done].
  - destruct (slice_set acc i r) as [acc'|]; [|done].
    destruct (run h (buildRecipients_loop cek senderKey (S i) rest acc') s1)
      as [[r2 s2] t2] eqn:Hrest.
    intros [= -> <- <-].
    apply buildRecipient_Ok in Hone as (w & -> & _).
    apply IH in Hrest as (t0 & ev & -> & Hclean & Hfail).
    exists (recipient_events cek senderKey key w ++ t0), ev.
    split; [by rewrite app_assoc|]. split; [|done].
    apply Forall_app. split; [apply clean_recipient_events | done].
  - intros [= <- <- <-]. by eapply buildRecipient_Err.
Qed.

(** The four ways a call with at least one recipient can go: the first
    read fails, the second read fails, a recipient cannot be built, or the
    payload is sealed. *)
Lemma Encrypt_run_cases {St} (h : handler St) payload sender keys s r s' t :
  length keys <> 0 ->
  run h (Encrypt payload sender keys) s = (r, s', t) ->
  (exists nd e,
      r = Done (Err e) /\ t = [Ev (RandRead chacha_NonceSize) (nd, Some e)]) \/
  (exists nd cd e,
      r = Done (Err e) /\
      t = [Ev (RandRead chacha_NonceSize) (nd, None);
           Ev (RandRead chacha_KeySize) (cd, Some e)]) \/
  (exists nd cd e t3,
      r = Done (Err e) /\
      t = Ev (RandRead chacha_NonceSize) (nd, None)
          :: Ev (RandRead chacha_KeySize) (cd, None) :: t3 /\
      aborted e t3 /\
      Forall (fun ev => not_sealing (event_op ev)) t3) \/
  (exists nd cd t3 aad symPld,
      t = Ev (RandRead chacha_NonceSize) (nd, None)
          :: Ev (RandRead chacha_KeySize) (cd, None)
          :: t3
          ++ [Ev (ChachaSeal (filled chacha_KeySize cd)
                    (filled chacha_NonceSize nd) payload aad) symPld] /\
      clean t3 /\
      Forall (fun ev => not_sealing (event_op ev)) t3 /\
      ((length symPld < poly1305_TagSize /\
        r = Panicked "slice bounds out of range") \/
       (poly1305_TagSize <= length symPld /\ exists out, r = Done (Ok out)))).
Proof.
  intros Hne. unfold Encrypt. rewrite decide_False by done.
  rewrite recKeys_loop_make, run_bindE, run_readRand.
  destruct (h (RandRead chacha_NonceSize) s) as [[nd [e|]] s1];
    cbn [fst snd].
  { intros [= <- <- <-]. left. by exists nd, e. }
  rewrite run_bindE, run_readRand.
  destruct (h (RandRead chacha_KeySize) s1) as [[cd [e|]] s2];
    cbn [fst snd].
  { intros [= <- <- <-]. right. left. by exists nd, cd, e. }
  rewrite run_bindE. unfold buildRecipients.
  pose proof (calls_only_run not_sealing h _
                (not_sealing_buildRecipients_loop
                   (filled chacha_KeySize cd) sender keys 0
                   (replicate (length keys) zero_recipient)) s2) as Hns.
  destruct (buildRecipients_loop_no_panic h (filled chacha_KeySize cd) sender
              keys 0 (replicate (length keys) zero_recipient) s2)
    as [res Hres]; [rewrite length_replicate; lia|].
  pose proof (fail_fast_buildRecipients_loop (filled chacha_KeySize cd)
                sender keys 0 (replicate (length keys) zero_recipient)
                St h s2) as Hff.
  destruct (run h (buildRecipients_loop _ sender 0 keys _) s2)
    as [[r3 s3] t3] eqn:Hrec. simpl in Hres, Hns. subst r3.
  destruct res as [rs|e].
  - rewrite run_buildEnvelope, decide_True by apply filled_length. cbv zeta.
    match goal with
    | |- context [h ?o s3] => destruct (h o s3) as [sym s4]
    end.
    intros [= <- <- <-]. right. right. right.
    eexists nd, cd, t3, _, sym. split; [reflexivity|].
    split.
    { destruct (Hff _ _ _ eq_refl) as [Hc|(e & _ & [=])]. exact Hc. }
    split; [exact Hns|].
    destruct (decide (length sym < poly1305_TagSize)) as [Hlt|Hge].
    + by left.
    + right. split; [lia | by eexists].
  - intros [= <- <- <-]. right. right. left. exists nd, cd, e, t3.
    split; [done|]. split; [done|]. split; [|exact Hns].
    by eapply buildRecipients_loop_Err.
Qed.

Lemma Encrypt_empty_run {St} (h : handler St) payload sender keys s :
  length keys = 0 ->
  run h (Encrypt payload sender keys) s
  = (Done (Err empty_recipients_error), s, []).
Proof. intros Hlen. unfold Encrypt. by rewrite decide_True. Qed.

(** X7. [Encrypt] trusts the cipher for the length of what it returns: a
    call in which the AEAD hands back fewer than sixteen bytes does not
    return an error, it panics on the slice expression that cuts the
    tag. *)
Theorem Encrypt_short_seal_panics :
  forall (St : Type) (h : handler St) payload sender keys s r s' t symPld,
    run h (Encrypt payload sender keys) s = (r, s', t) ->
    last t ≫= aead_output = Some symPld ->
    length symPld < poly1305_TagSize ->
    r = Panicked "slice bounds out of range".
Proof.
  intros St h payload sender keys s r s' t symPld Hrun Hlast Hshort.
  destruct (decide (length keys = 0)) as [Hlen|Hlen].
  { rewrite Encrypt_empty_run in Hrun by done. by injection Hrun as <- <- <-. }
  assert (Hnone : forall u,
             Forall (fun ev => not_sealing (event_op ev)) u ->
             t = u -> False).
  { intros u Hu ->. apply not_sealing_last in Hu. congruence. }
  destruct (Encrypt_run_cases h _ _ _ _ _ _ _ Hlen Hrun)
    as [(nd & e & _ & Ht)
       |[(nd & cd & e & _ & Ht)
        |[(nd & cd & e & t3 & _ & Ht & _ & Hns)
         |(nd & cd & t3 & aad & sym & Ht & _ & _ & Hend)]]].
  - exfalso. eapply Hnone; [|exact Ht]. by repeat constructor.
  - exfalso. eapply Hnone; [|exact Ht]. by repeat constructor.
  - exfalso. eapply Hnone; [|exact Ht]. by repeat constructor.
  - rewrite Ht, !app_comm_cons, last_snoc in Hlast. cbn in Hlast.
    injection Hlast as ->.
    destruct Hend as [[_ ->]|[Hge _]]; [done | lia].
Qed.

Lemma Encrypt_short_seal_panics_witness :
  exists r s' t symPld,
    run short_sealer (Encrypt demo_payload demo_sender demo_recipients) 65
      = (r, s', t) /\
    last t ≫= aead_output = Some symPld /\
    length symPld < poly1305_TagSize /\
    r = Panicked "slice bounds out of range".
Proof.
  eexists _, _, _, _. split; [vm_compute; reflexivity|].
  split; [vm_compute; reflexivity|].
  split; [vm_compute; lia|].
  eapply (Encrypt_short_seal_panics nat short_sealer demo_payload demo_sender
            demo_recipients 65).
  - vm_compute. reflexivity.
  - vm_compute. reflexivity.
  - vm_compute. lia.
Defined.

(** X8. [Encrypt] has one error of its own, the one for an empty recipient
    list.  Every other error it returns is the error of the last call it
    made on a collaborator, and no call before that one failed; a key of
    the wrong length, in particular, never reaches the cipher. *)
Theorem Encrypt_error_origin :
  forall (St : Type) (h : handler St) payload sender keys s e s' t,
    run h (Encrypt payload sender keys) s = (Done (Err e), s', t) ->
    (keys = [] /\ t = [] /\ e = empty_recipients_error) \/
    (exists t0 ev, t = t0 ++ [ev] /\ clean t0 /\ failure ev = Some e).
Proof.
  intros St h payload sender keys s e s' t Hrun.
  destruct (decide (length keys = 0)) as [Hlen|Hlen].
  { rewrite Encrypt_empty_run in Hrun by done. injection Hrun as <- <- <-.
    left. by destruct keys. }
  right.
  destruct (Encrypt_run_cases h _ _ _ _ _ _ _ Hlen Hrun)
    as [(nd & e1 & [= <-] & ->)
       |[(nd & cd & e1 & [= <-] & ->)
        |[(nd & cd & e1 & t3 & [= <-] & -> & (t0 & ev & -> & Hc & Hf) & _)
         |(nd & cd & t3 & aad & sym & _ & _ & _ & Hend)]]].
  - eexists [], _. split; [reflexivity|]. split; [constructor | done].
  - eexists [_], _. split; [reflexivity|].
    split; [by repeat constructor | done].
  - eexists (_ :: _ :: t0), ev. split; [reflexivity|].
    split; [by repeat constructor | done].
  - destruct Hend as [[_ [=]]|[_ [out [=]]]].
Qed.

Lemma Encrypt_error_origin_witness :
  let e := errors_New "kms: key not found" in
  exists s' t,
    run (kms_fails e) (Encrypt demo_payload demo_sender demo_recipients) 65
      = (Done (Err e), s', t) /\
    ((demo_recipients = [] /\ t = [] /\ e = empty_recipients_error) \/
     (exists t0 ev, t = t0 ++ [ev] /\ clean t0 /\ failure ev = Some e)).
Proof.
  intros e. eexists _, _. split; [vm_compute; reflexivity|].
  eapply (Encrypt_error_origin nat (kms_fails e) demo_payload demo_sender
            demo_recipients 65).
  vm_compute. reflexivity.
Defined.

(** X9. The payload is sealed last: a call of [Encrypt] that returns an
    error has not called the AEAD, so nothing of the payload has been
    handed to the cipher. *)
Theorem Encrypt_error_before_sealing :
  forall (St : Type) (h : handler St) payload sender keys s e s' t,
    run h (Encrypt payload sender keys) s = (Done (Err e), s', t) ->
    aead_aads t = [] /\ Forall (fun ev => not_sealing (event_op ev)) t.
Proof.
  intros St h payload sender keys s e s' t Hrun.
  assert (Hns : Forall (fun ev => not_sealing (event_op ev)) t).
  { destruct (decide (length keys = 0)) as [Hlen|Hlen].
    { rewrite Encrypt_empty_run in Hrun by done.
      injection Hrun as <- <- <-. constructor. }
    destruct (Encrypt_run_cases h _ _ _ _ _ _ _ Hlen Hrun)
      as [(nd & e1 & _ & ->)
         |[(nd & cd & e1 & _ & ->)
          |[(nd & cd & e1 & t3 & _ & -> & _ & Hns)
           |(nd & cd & t3 & aad & sym & _ & _ & _ & Hend)]]].
    - by repeat constructor.
    - by repeat constructor.
    - by repeat constructor.
    - destruct Hend as [[_ [=]]|[_ [out [=]]]]. }
  split; [by apply not_sealing_aads | exact Hns].
Qed.

Lemma Encrypt_error_before_sealing_witness :
  let e := errors_New "kms: key not found" in
  exists s' t,
    run (kms_fails e) (Encrypt demo_payload demo_sender demo_recipients) 65
      = (Done (Err e), s', t) /\
    aead_aads t = [] /\ Forall (fun ev => not_sealing (event_op ev)) t.
Proof.
  intros e. eexists _, _. split; [vm_compute; reflexivity|].
  eapply (Encrypt_error_before_sealing nat (kms_fails e) demo_payload
            demo_sender demo_recipients 65).
  vm_compute. reflexivity.
Defined.

(** ** Key identifiers *)



(** ** The envelope as text *)

Lemma plain_textual s : plain s -> Forall textual s.
Proof.
  intros Hs. eapply Forall_impl; [exact Hs|].
  intros c Hc. unfold htmlSafe in Hc.
  rewrite !andb_true_iff in Hc. destruct Hc as [[[[[[H1 H2] _] _] _] _] _].
  apply N.leb_le in H1. apply N.ltb_lt in H2. by split.
Qed.

Ltac textual_parts :=
  repeat match goal with
         | |- Forall textual [] => constructor
         | |- Forall textual (_ :: _) => apply Forall_cons; split
         | |- Forall textual (_ ++ _) => apply Forall_app; split
         | |- Forall textual (str _) =>
             apply plain_textual, plain_check; reflexivity
         | |- Forall textual (EncodeToString _) =>
             apply plain_textual, EncodeToString_plain
         | |- textual _ =>
             split; [vm_compute; discriminate | vm_compute; reflexivity]
         end.

(** X11. The envelope a successful [Encrypt] returns is 7-bit text: it
    holds no control character and no byte above 127, whatever bytes the
    payload, the keys and the collaborators' answers hold. *)
Theorem Encrypt_output_textual :
  forall (St : Type) (h : handler St) payload sender keys s out s' t,
    run h (Encrypt payload sender keys) s = (Done (Ok out), s', t) ->
    Forall textual out.
Proof.
  intros St h payload sender keys s out s' t Hrun.
  apply Encrypt_Ok in Hrun as (nd & cd & ws & sym & [Hws Ht Htag ->]).
  rewrite marshal_legacyEnvelope_text by apply EncodeToString_plain.
  cbn [Protected envIV CipherText Tag]. unfold protectedB64.
  unfold json_object, json_field, quoted. cbn [json_commas].
  textual_parts.
Qed.

Lemma Encrypt_output_textual_witness :
  exists out s' t,
    run demo_handler (Encrypt (x00 :: xff :: demo_payload) demo_sender
                        demo_recipients) 65
      = (Done (Ok out), s', t) /\
    Forall textual out.
Proof.
  eexists _, _, _. split; [vm_compute; reflexivity|].
  eapply (Encrypt_output_textual nat demo_handler (x00 :: xff :: demo_payload)
            demo_sender demo_recipients 65).
  vm_compute. reflexivity.
Defined.

(** ** What depends on the payload *)

(** X12. The payload reaches the AEAD call and nothing else: two successful
    calls of [Encrypt] that start from the same state of the collaborators
    with the same sender and recipients, on two payloads, make the same
    calls with the same answers up to the AEAD call, and their envelopes
    have the same protected header and the same [iv]; the header is the
    additional data of both AEAD calls. *)
Theorem Encrypt_payload_only_sealed :
  forall (St : Type) (h : handler St) payload1 payload2 sender keys s
         out1 out2 s1' s2' t1 t2,
    run h (Encrypt payload1 sender keys) s = (Done (Ok out1), s1', t1) ->
    run h (Encrypt payload2 sender keys) s = (Done (Ok out2), s2', t2) ->
    exists env1 env2 before ev1 ev2,
      out1 = marshal_legacyEnvelope env1 /\
      out2 = marshal_legacyEnvelope env2 /\
      t1 = before ++ [ev1] /\
      t2 = before ++ [ev2] /\
      Protected env1 = Protected env2 /\
      envIV env1 = envIV env2 /\
      aead_aad ev1 = Some (Protected env1) /\
      aead_aad ev2 = Some (Protected env2).
Proof.
  intros St h payload1 payload2 sender keys s out1 out2 s1' s2' t1 t2.
  unfold Encrypt. destruct (decide (length keys = 0)) as [|_]; [done|].
  rewrite recKeys_loop_make, !run_bindE, !run_readRand.
  destruct (h (RandRead chacha_NonceSize) s) as [[nd [e|]] s1];
    cbn [fst snd]; [done|].
  rewrite !run_bindE, !run_readRand.
  destruct (h (RandRead chacha_KeySize) s1) as [[cd [e|]] s2];
    cbn [fst snd]; [done|].
  rewrite !run_bindE.
  destruct (run h (buildRecipients _ sender keys) s2)
    as [[[[rs|e]|msg] s3] t3]; try done.
  rewrite !run_buildEnvelope, !decide_True by apply filled_length.
  cbv zeta.
  destruct (h (ChachaSeal _ _ payload1 _) s3) as [sym1 s4].
  destruct (h (ChachaSeal _ _ payload2 _) s3) as [sym2 s5].
  destruct (decide (length sym1 < poly1305_TagSize)); [done|].
  destruct (decide (length sym2 < poly1305_TagSize)); [done|].
  intros [= <- <- <-] [= <- <- <-].
  eexists _, _, (_ :: _ :: t3), _, _.
  split; [reflexivity|]. split; [reflexivity|].
  split; [reflexivity|]. split; [reflexivity|]. done.
Qed.

Lemma Encrypt_payload_only_sealed_witness :
  exists out1 out2 s1' s2' t1 t2,
    run demo_handler (Encrypt demo_payload demo_sender demo_recipients) 65
      = (Done (Ok out1), s1', t1) /\
    run demo_handler (Encrypt empty_payload demo_sender demo_recipients) 65
      = (Done (Ok out2), s2', t2) /\
    exists env1 env2 before ev1 ev2,
      out1 = marshal_legacyEnvelope env1 /\
      out2 = marshal_legacyEnvelope env2 /\
      t1 = before ++ [ev1] /\
      t2 = before ++ [ev2] /\
      Protected env1 = Protected env2 /\
      envIV env1 = envIV env2 /\
      aead_aad ev1 = Some (Protected env1) /\
      aead_aad ev2 = Some (Protected env2).
Proof.
  eexists _, _, _, _, _, _.
  split; [vm_compute; reflexivity|]. split; [vm_compute; reflexivity|].
  eapply (Encrypt_payload_only_sealed nat demo_handler demo_payload
            empty_payload demo_sender demo_recipients 65).
  - vm_compute. reflexivity.
  - vm_compute. reflexivity.
Defined.

(** X13. The envelope loses nothing of what went into it: two successful
    calls of [Encrypt], on any inputs and with any collaborators, that
    return the same bytes used the same payload nonce and the same
    additional data, and were handed the same sealed payload by the
    cipher. *)
Theorem Encrypt_output_determines_fields :
  forall (St1 St2 : Type) (h1 : handler St1) (h2 : handler St2)
         payload1 payload2 sender1 sender2 keys1 keys2
         s1 s2 out s1' s2' t1 t2,
    run h1 (Encrypt payload1 sender1 keys1) s1 = (Done (Ok out), s1', t1) ->
    run h2 (Encrypt payload2 sender2 keys2) s2 = (Done (Ok out), s2', t2) ->
    payloadNonce t1 = payloadNonce t2 /\
    aead_aads t1 = aead_aads t2 /\
    last t1 ≫= aead_output = last t2 ≫= aead_output.
Proof.
  intros St1 St2 h1 h2 payload1 payload2 sender1 sender2 keys1 keys2
    s1 s2 out s1' s2' t1 t2 Hrun1 Hrun2.
  apply Encrypt_Ok in Hrun1 as (nd1 & cd1 & ws1 & sym1 & Hs1).
  apply Encrypt_Ok in Hrun2 as (nd2 & cd2 & ws2 & sym2 & Hs2).
  pose proof (sealed_last _ _ _ _ _ _ _ _ _ Hs1) as Hlast1.
  pose proof (sealed_last _ _ _ _ _ _ _ _ _ Hs2) as Hlast2.
  destruct (sealed_reads _ _ _ _ _ _ _ _ _ Hs1) as [Hn1 _].
  destruct (sealed_reads _ _ _ _ _ _ _ _ _ Hs2) as [Hn2 _].
  assert (Haad : forall payload sender keys t nd cd ws sym,
             sealed payload sender keys t out nd cd ws sym ->
             aead_aads t = [protectedB64 (zip_with recipient_entry keys ws)]).
  { intros payload sender keys t nd cd ws sym [_ -> _ _]. unfold aead_aads.
    change (omap aead_aad (?a :: ?b :: ?l)) with (omap aead_aad l).
    rewrite omap_app.
    fold (aead_aads (concat (zip_with (recipient_events
      (filled chacha_KeySize cd) sender) keys ws))).
    by rewrite aead_aads_recipients. }
  rewrite (Haad _ _ _ _ _ _ _ _ Hs1), (Haad _ _ _ _ _ _ _ _ Hs2).
  rewrite Hn1, Hn2, Hlast1, Hlast2. cbn [mbind option_bind aead_output].
  destruct Hs1 as [_ _ _ Hout1]. destruct Hs2 as [_ _ _ Hout2].
  rewrite Hout1 in Hout2.
  apply marshal_legacyEnvelope_inj in Hout2;
    [| split; cbn; apply EncodeToString_plain ..].
  pose proof (f_equal Protected Hout2) as Hp.
  pose proof (f_equal envIV Hout2) as Hiv.
  pose proof (f_equal CipherText Hout2) as Hct.
  pose proof (f_equal Tag Hout2) as Htag.
  cbn [Protected envIV CipherText Tag] in Hp, Hiv, Hct, Htag.
  apply EncodeToString_inj in Hiv, Hct, Htag.
  split; [by rewrite Hiv|]. split; [by rewrite Hp|].
  f_equal.
  rewrite <-(take_drop (length sym1 - poly1305_TagSize) sym1).
  rewrite <-(take_drop (length sym2 - poly1305_TagSize) sym2).
  by rewrite Hct, Htag.
Qed.

Lemma Encrypt_output_determines_fields_witness :
  exists out s1' s2' t1 t2,
    run demo_handler (Encrypt demo_payload demo_sender demo_recipients) 65
      = (Done (Ok out), s1', t1) /\
    run demo_handler (Encrypt demo_payload demo_sender demo_recipients) 65
      = (Done (Ok out), s2', t2) /\
    payloadNonce t1 = payloadNonce t2 /\
    aead_aads t1 = aead_aads t2 /\
    last t1 ≫= aead_output = last t2 ≫= aead_output.
Proof.
  eexists _, _, _, _, _.
  split; [vm_compute; reflexivity|]. split; [vm_compute; reflexivity|].
  eapply (Encrypt_output_determines_fields nat nat demo_handler demo_handler
            demo_payload demo_payload demo_sender demo_sender
            demo_recipients demo_recipients 65 65).
  - vm_compute. reflexivity.
  - vm_compute. reflexivity.
Defined.

(** ** Reading a recipient entry back *)

(** X14. The entry [buildRecipient] returns can be decoded field by field
    into what it was made of: base58-decoding its [kid] gives back the
    recipient key, leading zero bytes included, and base64-decoding its
    [iv], [encrypted_key] and [sender] gives back the 24-byte wrap nonce
    handed to [Easy], the box [Easy] returned and the bytes [Seal]
    returned. *)
Theorem buildRecipient_entry_decodes :
  forall (St : Type) (h : handler St) cek senderKey recKey s r s' t,
    run h (buildRecipient cek senderKey recKey) s = (Done (Ok r), s', t) ->
    base58_Decode (KID (Header r)) = recKey /\
    exists nonce box sealedSender recEncKey senderEncKey,
      DecodeString (IV (Header r)) = Some nonce /\
      length nonce = 24 /\
      DecodeString (EncryptedKey r) = Some box /\
      DecodeString (Sender (Header r)) = Some sealedSender /\
      t !! 4 = Some (Ev (BoxEasy cek nonce recEncKey senderEncKey) (Ok box)) /\
      t !! 5 = Some (Ev (BoxSeal (base58_Encode senderKey) recEncKey)
                        (Ok sealedSender)).
Proof.
  intros St h cek senderKey recKey s r s' t Hrun.
  apply buildRecipient_Ok in Hrun as (w & -> & ->).
  cbn [recipient_entry Header KID IV EncryptedKey Sender].
  split; [apply base58_Decode_Encode|].
  exists (wrapNonce w), (encCEK w), (encSender w), (recEncKey w),
    (senderEncKey w).
  rewrite !DecodeString_EncodeToString.
  split; [done|]. split; [apply filled_length|]. done.
Qed.

Lemma buildRecipient_entry_decodes_witness :
  exists r s' t,
    run demo_handler (buildRecipient swap_K1 demo_sender demo_second) 65
      = (Done (Ok r), s', t) /\
    base58_Decode (KID (Header r)) = demo_second /\
    exists nonce box sealedSender recEncKey senderEncKey,
      DecodeString (IV (Header r)) = Some nonce /\
      length nonce = 24 /\
      DecodeString (EncryptedKey r) = Some box /\
      DecodeString (Sender (Header r)) = Some sealedSender /\
      t !! 4 = Some (Ev (BoxEasy swap_K1 nonce recEncKey senderEncKey)
                        (Ok box)) /\
      t !! 5 = Some (Ev (BoxSeal (base58_Encode demo_sender) recEncKey)
                        (Ok sealedSender)).
Proof.
  eexists _, _, _. split; [vm_compute; reflexivity|].
  eapply (buildRecipient_entry_decodes nat demo_handler swap_K1 demo_sender
            demo_second 65).
  vm_compute. reflexivity.
Defined.
